(** * lab8-ai-services: a chat application with swappable responders

    A shallow embedding of the JavaScript sources of the repository:
    the message store ([ChatModel], src/js/model.js), the Gemini adapter
    ([GeminiService], src/services/GeminiService.js), the OpenAI adapter
    ([OpenAIService], src/js/services/OpenAIService.js), the two revisions
    of the local adapter ([ElizaService]), the local dialogue engine the
    adapters call into ([Eliza]), and the controller that ties them to the
    view ([ChatController]).

    JavaScript strings are embedded as [string]; a character stands for one
    UTF-16 code unit below 256.  Calls that can throw return a
    [completion]; promises are embedded by the way they settle. *)

From Stdlib Require Import Ascii String.
From stdpp Require Import base option list gmap strings pretty.

(** ** JavaScript values shared by all modules *)

Module Js.

(** The name and message of a thrown [Error] object. *)
Record error := mkError { errName : string; errMessage : string }.

Definition Error (msg : string) : error := mkError "Error" msg.
Definition TypeError (msg : string) : error := mkError "TypeError" msg.

(** How a synchronous call ends. *)
Inductive completion (A : Type) : Type :=
| Return (v : A)
| Throw (e : error).
Arguments Return {A} v.
Arguments Throw {A} e.

(** How a promise settles; [Pending] is a promise nothing ever settles. *)
Inductive settlement (A : Type) : Type :=
| Resolved (v : A)
| Rejected (e : error)
| Pending.
Arguments Resolved {A} v.
Arguments Rejected {A} e.
Arguments Pending {A}.

(** WhiteSpace and LineTerminator code units below 256: TAB, LF, VT, FF, CR,
    SP and NBSP.  These are what [String.prototype.trim] strips. *)
Definition isWhiteSpace (c : ascii) : bool :=
  match c with
  | "009" | "010" | "011" | "012" | "013" | " " | "160" => true
  | _ => false
  end%char.

Fixpoint trimStart (s : string) : string :=
  match s with
  | EmptyString => EmptyString
  | String c s' => if isWhiteSpace c then trimStart s' else s
  end.

Fixpoint trimEnd (s : string) : string :=
  match s with
  | EmptyString => EmptyString
  | String c s' =>
      match trimEnd s' with
      | EmptyString => if isWhiteSpace c then EmptyString else String c EmptyString
      | r => String c r
      end
  end.

(** [s.trim()] *)
Definition trim (s : string) : string := trimEnd (trimStart s).

(** Every code unit of [s] is white space (the empty string included). *)
Fixpoint allWhiteSpace (s : string) : bool :=
  match s with
  | EmptyString => true
  | String c s' => isWhiteSpace c && allWhiteSpace s'
  end.

(** The text is empty or consists of white space only. *)
Definition blank (text : string) : Prop :=
  text = "" ∨ allWhiteSpace text = true.

(** [!s] for a string: only the empty string is falsy. *)
Definition falsy (s : string) : bool :=
  match s with EmptyString => true | _ => false end.

(** [hay.startsWith(needle)] *)
Definition startsWith (needle hay : string) : bool := String.prefix needle hay.

(** [hay.includes(needle)]: [needle] starts at some position of [hay]. *)
Fixpoint includes (needle hay : string) : bool :=
  startsWith needle hay
  || match hay with
     | EmptyString => false
     | String _ hay' => includes needle hay'
     end.

End Js.

Import Js.

(** ** ChatModel (src/js/model.js) *)

Module ChatModel.

Record Message := mkMessage {
  id : string;
  text : string;
  isUser : bool;
  timestamp : N;
  edited : bool;
  editedAt : option N
}.

(** What [localStorage.getItem(storageKey)] holds: nothing, a string that is
    empty, does not parse, or parses to something that is no array, or the
    JSON text of an array of messages. *)
Inductive Entry :=
| Missing
| Garbage (raw : string)
| Stored (messages : list Message).

(** The browser store behind [storageKey].  [accepts l] tells whether
    [setItem] takes the serialisation of [l]; it throws (quota) otherwise. *)
Record Storage := mkStorage {
  entry : Entry;
  accepts : list Message → bool
}.

(** The model object together with the store it persists to.  The observers
    of this application render the list and do not write to the store, so
    they are embedded by their number and by what was delivered to them. *)
Record World := mkWorld {
  localStorage : Storage;
  observers : nat;
  delivered : list (list Message)
}.

Definition getAll (w : World) : list Message :=
  match entry (localStorage w) with
  | Missing => []
  | Garbage _ => []
  | Stored parsed => parsed
  end.

Definition _save (messages : list Message) (w : World) : completion unit * World :=
  if accepts (localStorage w) messages
  then (Return tt,
        mkWorld (mkStorage (Stored messages) (accepts (localStorage w)))
                (observers w) (delivered w))
  else (Throw (Error "Failed to save data"), w).

Definition _notifyObservers (w : World) : World :=
  let messages := getAll w in
  mkWorld (localStorage w) (observers w)
          (delivered w ++ replicate (observers w) messages).

(** The guard [!text || text.trim().length === 0]. *)
Definition emptyText (text : string) : bool :=
  falsy text || (String.length (trim text) =? 0)%nat.

(** [create(text, isUser)]; [uuid] and [now] are the values
    [crypto.randomUUID()] and [Date.now()] return in this call. *)
Definition create (text : string) (isUser : bool) (uuid : string) (now : N)
    (w : World) : completion Message * World :=
  if emptyText text then (Throw (Error "Message text cannot be empty"), w)
  else
    let messages := getAll w in
    let newMessage := mkMessage uuid (trim text) isUser now false None in
    let messages := messages ++ [newMessage] in
    match _save messages w with
    | (Throw e, w') => (Throw e, w')
    | (Return _, w') => (Return newMessage, _notifyObservers w')
    end.

(** [messages.find(msg => msg.id === id)], with the position of the hit:
    the object found is the one stored at that position. *)
Fixpoint find (i : string) (messages : list Message) : option (nat * Message) :=
  match messages with
  | [] => None
  | msg :: rest =>
      if decide (id msg = i) then Some (0, msg)
      else prod_map S (λ m, m) <$> find i rest
  end.

(** The message [update] works on: the first one in the list with the id. *)
Definition target (i : string) (messages : list Message) (k : nat) (m : Message) : Prop :=
  messages !! k = Some m ∧ id m = i
  ∧ ∀ j m', j < k → messages !! j = Some m' → id m' ≠ i.

(** The three assignments [message.text = newText.trim()],
    [message.edited = true], [message.editedAt = Date.now()] on the object
    found; its id, author and creation time stay. *)
Definition edit (newText : string) (now : N) (m : Message) : Message :=
  mkMessage (id m) (trim newText) (isUser m) (timestamp m) true (Some now).

Definition getById (i : string) (w : World) : option Message :=
  snd <$> find i (getAll w).

(** [update(id, newText)]; [None] is JavaScript's [null]. *)
Definition update (i : string) (newText : string) (now : N) (w : World)
    : completion (option Message) * World :=
  if emptyText newText then (Throw (Error "Message text cannot be empty"), w)
  else
    let messages := getAll w in
    match find i messages with
    | None => (Return None, w)
    | Some (k, message) =>
        if negb (isUser message)
        then (Throw (Error "Cannot edit bot messages"), w)
        else
          let message := edit newText now message in
          let messages := <[k := message]> messages in
          match _save messages w with
          | (Throw e, w') => (Throw e, w')
          | (Return _, w') => (Return (Some message), _notifyObservers w')
          end
    end.

Definition delete (i : string) (w : World) : completion bool * World :=
  let messages := getAll w in
  let initialLength := length messages in
  let filtered := filter (λ msg, id msg ≠ i) messages in
  if (length filtered =? initialLength)%nat then (Return false, w)
  else
    match _save filtered w with
    | (Throw e, w') => (Throw e, w')
    | (Return _, w') => (Return true, _notifyObservers w')
    end.

Definition clear (w : World) : completion bool * World :=
  match _save [] w with
  | (Throw e, w') => (Throw e, w')
  | (Return _, w') => (Return true, _notifyObservers w')
  end.

(** What [getStats()] returns; [lastMessageTime] is [None] for JavaScript's
    [null]. *)
Record Stats := mkStats {
  total : nat;
  userMessages : nat;
  botMessages : nat;
  editedMessages : nat;
  lastMessageTime : option N
}.

Definition getStats (w : World) : Stats :=
  let messages := getAll w in
  let userMessages := filter (λ m, isUser m = true) messages in
  let botMessages := filter (λ m, isUser m = false) messages in
  let editedMessages := filter (λ m, edited m = true) messages in
  mkStats (length messages) (length userMessages) (length botMessages)
          (length editedMessages) (timestamp <$> last messages).

(** A store that takes every write. *)
Definition open (w : World) : Prop := ∀ l, accepts (localStorage w) l = true.

(** A call of one of the four mutators, with the values the platform hands
    it ([crypto.randomUUID()], [Date.now()]). *)
Inductive Call :=
| CallCreate (text : string) (isUser : bool) (uuid : string) (now : N)
| CallUpdate (i : string) (newText : string) (now : N)
| CallDelete (i : string)
| CallClear.

(** The world after a call, whatever it returned or threw. *)
Definition perform (c : Call) (w : World) : World :=
  match c with
  | CallCreate text isUser uuid now => (create text isUser uuid now w).2
  | CallUpdate i newText now => (update i newText now w).2
  | CallDelete i => (delete i w).2
  | CallClear => (clear w).2
  end.

(** A session of calls, in order. *)
Definition performAll (cs : list Call) (w : World) : World :=
  foldl (λ w c, perform c w) w cs.

(** From [w] to [w'] every observer was called once more, with the list
    stored in [w']. *)
Definition notified (w w' : World) : Prop :=
  observers w' = observers w
  ∧ delivered w' = delivered w ++ replicate (observers w) (getAll w').

(** A message as [create] and [update] leave it: the text is not empty, and
    trimming it changes nothing. *)
Definition tidy (m : Message) : Prop :=
  text m ≠ "" ∧ trim (text m) = text m.

End ChatModel.

(** ** GeminiService (src/services/GeminiService.js) *)

Module GeminiService.
Import ChatModel.

(** One entry of the request payload: [{ role, parts: [{ text }] }]. *)
Record Content := mkContent { role : string; parts : list string }.

(** The fields the constructor sets; [apiKey] is whatever the caller passed,
    [None] standing for [undefined] and [null]. *)
Record GeminiService := mkGeminiService {
  apiKey : option string;
  endpoint : string;
  maxRetries : nat
}.

Definition constructor (apiKey : option string) : GeminiService :=
  mkGeminiService apiKey
    "https://generativelanguage.googleapis.com/v1beta/models/gemini-pro:generateContent"
    2.

(** [!this.apiKey] *)
Definition noApiKey (self : GeminiService) : bool :=
  match apiKey self with
  | None => true
  | Some key => falsy key
  end.

(** [history.slice(-10)]: the last ten entries, or all of them. *)
Definition slice_last {A} (n : nat) (l : list A) : list A :=
  drop (length l - n) l.

(** The members of [Array.prototype] this file names. *)
Inductive ArrayMember := slice | forEach | push.

(** Property lookup on an array by name: [None] is [undefined], which is
    what a name that is no member of the array or its prototypes yields. *)
Definition Array_prototype (name : string) : option ArrayMember :=
  if decide (name = "slice") then Some slice
  else if decide (name = "forEach") then Some forEach
  else if decide (name = "push") then Some push
  else None.

(** The statement [contents.<name>({...})]: the array afterwards, or what is
    thrown.  [push] appends; [slice] copies and leaves the array alone;
    [forEach] throws on an argument that is no function; calling
    [undefined] throws. *)
Definition callOn (contents : list Content) (name : string) (item : Content)
    : completion (list Content) :=
  match Array_prototype name with
  | Some push => Return (contents ++ [item])
  | Some slice => Return contents
  | Some forEach => Throw (TypeError "#<Object> is not a function")
  | None => Throw (TypeError ("contents." +:+ name +:+ " is not a function"))
  end.

Definition _buildContents (message : string) (history : list Message)
    : completion (list Content) :=
  let contents := [] in
  let recentHistory := slice_last 10 history in
  let contents :=
    foldl (λ contents msg,
             contents ++ [mkContent (if isUser msg then "user" else "model") [text msg]])
          contents recentHistory in
  match callOn contents "psu" (mkContent "user" [message]) with
  | Throw e => Throw e
  | Return contents => Return contents
  end.

(** The part of the API response [_extractText] reads:
    [candidates[..].finishReason] and [candidates[..].content?.parts?.[0]?.text]. *)
Record Candidate := mkCandidate { finishReason : string; partText : option string }.
Record Response := mkResponse { candidates : option (list Candidate) }.

Definition _extractText (response : Response) : completion string :=
  let body : completion string :=
    match candidates response with
    | None | Some [] => Throw (Error "No response generated")
    | Some (candidate :: _) =>
        if decide (finishReason candidate = "SAFETY")
        then Return "I apologize, but I can't respond to that due to safety guidelines."
        else match partText candidate with
             | None => Throw (Error "Empty response from AI")
             | Some text =>
                 if falsy text then Throw (Error "Empty response from AI")
                 else Return (trim text)
             end
    end in
  match body with
  | Return text => Return text
  | Throw _ => Throw (Error "Failed to parse AI response")
  end.

(** The request methods the class and its base class [AIService] define,
    by name.  The class body has [constructor], [getResponse],
    [_buildContents], [_extractText], [getName] and the static
    [isValidApiKey]; [AIService] has [getResponse] and [getName]: none of
    them sends a request. *)
Definition requestMethods : gmap string (list Content → settlement Response) := ∅.

(** [getResponse(message, history)], by the way the promise it returns
    settles. *)
Definition getResponse (self : GeminiService) (message : string)
    (history : list Message) : settlement string :=
  if noApiKey self then Rejected (Error "Gemini API key is required")
  else
    match _buildContents message history with
    | Throw e => Rejected e
    | Return contents =>
        let failed (e : error) := Rejected (Error ("Gemini failed: " +:+ errMessage e)) in
        match requestMethods !! "_makeRequest" with
        | None => failed (TypeError "this._makeRequest is not a function")
        | Some _makeRequest =>
            match _makeRequest contents with
            | Resolved response =>
                match _extractText response with
                | Return text => Resolved text
                | Throw e => failed e
                end
            | Rejected e => failed e
            | Pending => Pending
            end
        end
    end.

Definition getName : string := "Gemini Pro".

(** [static isValidApiKey(key)], by the truth value of what it returns
    ([key && key.length > 20 && key.startsWith('AIzaSy')]); [None] is a key
    that is [undefined] or [null]. *)
Definition isValidApiKey (key : option string) : bool :=
  match key with
  | None => false
  | Some key =>
      negb (falsy key) && (20 <? String.length key) && startsWith "AIzaSy" key
  end.

End GeminiService.

(** ** OpenAIService (src/js/services/OpenAIService.js) *)

Module OpenAIService.
Import ChatModel.

(** One entry of the request payload: [{ role, content }]. *)
Record ChatMessage := mkChatMessage { role : string; content : string }.

Record OpenAIService := mkOpenAIService {
  apiKey : option string;
  model : string;
  endpoint : string;
  maxRetries : nat
}.

Definition constructor (apiKey : option string) (model : string) : OpenAIService :=
  mkOpenAIService apiKey model "https://api.openai.com/v1/chat/completions" 2.

(** [!this.apiKey] *)
Definition noApiKey (self : OpenAIService) : bool :=
  match apiKey self with
  | None => true
  | Some key => falsy key
  end.

Definition systemMessage : ChatMessage :=
  mkChatMessage "system"
    "You are a helpful AI assistant in a chat application. Be concise, friendly, and helpful.".

Definition _buildMessages (message : string) (history : list Message)
    : list ChatMessage :=
  let messages := [] in
  let messages := messages ++ [systemMessage] in
  let recentHistory := GeminiService.slice_last 10 history in
  let messages :=
    foldl (λ messages msg,
             messages ++ [mkChatMessage (if isUser msg then "user" else "assistant")
                                        (text msg)])
          messages recentHistory in
  messages ++ [mkChatMessage "user" message].

(** What [fetch] is called with: the endpoint, the [Authorization] header
    and, of the body, the model and the messages (the sampling settings are
    constants).  A missing key is [null], as the controller holds it and as
    [localStorage.getItem] gives it, and the template literal writes it as
    "null". *)
Record Request := mkRequest {
  url : string;
  authorization : string;
  requestModel : string;
  requestMessages : list ChatMessage
}.

Definition request (self : OpenAIService) (messages : list ChatMessage) : Request :=
  mkRequest (endpoint self)
            ("Bearer " +:+ match apiKey self with Some key => key | None => "null" end)
            (model self) messages.

(** The part of a completion [_extractText] reads: [choices[..].finish_reason]
    and [choices[..].message?.content]. *)
Record Choice := mkChoice { finish_reason : string; messageContent : option string }.
Record Response := mkResponse { choices : option (list Choice) }.

(** What [await response.json().catch(() => ({}))] gives on an error
    response: [null], or an object with its [error?.message]. *)
Inductive ErrorData :=
| ErrorNull
| ErrorObject (message : option string).

(** What one call of [fetch] comes to: the promise rejects; the response
    is not ok; the response is ok and [response.json()] gives the body or
    rejects; or the promise of [fetch], or that of [response.json()] after
    it, never settles (the request sets no timeout). *)
Inductive Fetched :=
| NetworkError (e : error)
| NotOk (status : nat) (errorData : ErrorData)
| Okay (body : completion Response)
| Unsettled.

(** The [try] block of [_makeRequest], given what [fetch] came to: it
    returns, it throws, or it stays at one of its [await]s. *)
Definition attempt (f : Fetched) : settlement Response :=
  match f with
  | NetworkError e => Rejected e
  | NotOk status errorData =>
      if status =? 401
      then Rejected (Error "Invalid API key. Check your OpenAI API key.")
      else if status =? 429
      then Rejected (Error "Rate limit exceeded. Please wait a moment or upgrade your plan.")
      else if status =? 400
      then Rejected (Error "Invalid request. Please check your input.")
      else if (status =? 500) || (status =? 503)
      then Rejected (Error "OpenAI servers are experiencing issues. Please try again later.")
      else
        match errorData with
        | ErrorNull =>
            Rejected (TypeError "Cannot read properties of null (reading 'error')")
        | ErrorObject message =>
            let detail :=
              match message with
              | Some m => if falsy m then "Unknown error" else m
              | None => "Unknown error"
              end in
            Rejected (Error ("API error: " +:+ pretty status +:+ " - " +:+ detail))
        end
  | Okay (Return response) => Resolved response
  | Okay (Throw e) => Rejected e
  | Unsettled => Pending
  end.

(** How a call of [_makeRequest] went: how its promise settles, how many
    times [fetch] was called, and the milliseconds spent in back-off. *)
Record Run := mkRun { settled : settlement Response; fetches : nat; waited : nat }.

(** [_makeRequest(messages, retryCount)]; [net k] is what the [fetch] of the
    call with [retryCount = k] comes to.  An attempt that stays at an [await]
    leaves the promise pending.  [fuel] bounds the recursion; out of fuel
    the promise is left pending too. *)
Fixpoint _makeRequestFuel (fuel : nat) (self : OpenAIService) (net : nat → Fetched)
    (retryCount : nat) : Run :=
  match attempt (net retryCount) with
  | Pending => mkRun Pending 1 0
  | Resolved response => mkRun (Resolved response) 1 0
  | Rejected error =>
      if (retryCount <? maxRetries self) && includes "fetch" (errMessage error)
      then
        match fuel with
        | 0 => mkRun Pending 1 0
        | S fuel' =>
            let retry := _makeRequestFuel fuel' self net (retryCount + 1) in
            mkRun (settled retry) (S (fetches retry))
                  (1000 * (retryCount + 1) + waited retry)
        end
      else mkRun (Rejected error) 1 0
  end.

(** The back-off before the retries of attempts [retryCount],
    [retryCount + 1], ..., [k] of them: [1000 * (retryCount + 1)] each. *)
Fixpoint backoff (retryCount k : nat) : nat :=
  match k with
  | 0 => 0
  | S k' => 1000 * (retryCount + 1) + backoff (retryCount + 1) k'
  end.

Definition _makeRequest (self : OpenAIService) (net : nat → Fetched) (retryCount : nat)
    : Run :=
  _makeRequestFuel (maxRetries self - retryCount) self net retryCount.

Definition _extractText (response : Response) : completion string :=
  let body : completion string :=
    match choices response with
    | None | Some [] => Throw (Error "No response generated")
    | Some (choice :: _) =>
        if decide (finish_reason choice = "content_filter")
        then Return "I apologize, but I can't respond to that due to content policy guidelines."
        else match messageContent choice with
             | None => Throw (Error "Empty response from AI")
             | Some text =>
                 if falsy text then Throw (Error "Empty response from AI")
                 else Return (trim text)
             end
    end in
  match body with
  | Return text => Return text
  | Throw _ => Throw (Error "Failed to parse AI response")
  end.

(** How a call of [getResponse] went. *)
Record Answer := mkAnswer { answer : settlement string; calls : nat; slept : nat }.

(** [getResponse(message, history)]; [net] is the network: what each
    [fetch] of a request comes to. *)
Definition getResponse (self : OpenAIService) (net : Request → nat → Fetched)
    (message : string) (history : list Message) : Answer :=
  if noApiKey self then mkAnswer (Rejected (Error "OpenAI API key is required")) 0 0
  else
    let messages := _buildMessages message history in
    let failed (e : error) := Rejected (Error ("ChatGPT failed: " +:+ errMessage e)) in
    let run := _makeRequest self (net (request self messages)) 0 in
    mkAnswer
      match settled run with
      | Resolved response =>
          match _extractText response with
          | Return text => Resolved text
          | Throw e => failed e
          end
      | Rejected e => failed e
      | Pending => Pending
      end
      (fetches run) (waited run).

Definition getName (self : OpenAIService) : string :=
  "ChatGPT (" +:+ model self +:+ ")".

(** [static isValidApiKey(key)], by the truth value of what it returns. *)
Definition isValidApiKey (key : option string) : bool :=
  match key with
  | None => false
  | Some key =>
      negb (falsy key) && (40 <? String.length key) && startsWith "sk-" key
  end.

End OpenAIService.

(** ** The local dialogue engine *)

Module Eliza.

(** *** Data model (spec section 3) *)

(** How a call of the engine ends: with a value or with an error. *)
Inductive result (E A : Type) : Type :=
| Ok (a : A)
| Err (e : E).
Arguments Ok {E A} a.
Arguments Err {E A} e.

#[global] Instance result_bind {E} : MBind (result E) :=
  λ A B (k : A → result E B) (r : result E A),
    match r with
    | Ok a => k a
    | Err e => Err e
    end.

(** Modelled from the spec: [eliza.js] is not among the sources. Section 3: a
    decomposition pattern is an ordered sequence of literal tokens and
    wildcard markers. *)
Inductive PatternElement :=
| Literal (token : string)
| Wildcard.

#[global] Instance PatternElement_eq_dec : EqDecision PatternElement.
Proof. solve_decision. Defined.

(** Modelled from the spec: [eliza.js] is not among the sources. Section 3: a
    reassembly template is made of literal text spans and positional
    placeholders, each a 0-based index into the captures. *)
Inductive TemplateElement :=
| Text (span : string)
| Placeholder (slot : nat).

(** Modelled from the spec: [eliza.js] is not among the sources. Section 3. *)
Definition ReassemblyTemplate := list TemplateElement.

(** Modelled from the spec: [eliza.js] is not among the sources. Section 3:
    pattern, reassembly templates in order, memory flag. *)
Record DecompositionPattern := mkPattern {
  pattern : list PatternElement;
  reassemblies : list ReassemblyTemplate;
  memoryFlag : bool
}.

(** Modelled from the spec: [eliza.js] is not among the sources. Section 3:
    one rule per keyword, with its rank and its patterns in order. *)
Record Rule := mkRule {
  keyword : string;
  rank : Z;
  decompositions : list DecompositionPattern
}.

(** Modelled from the spec: [eliza.js] is not among the sources. Section 3:
    surface words that stand for one canonical keyword. *)
Record SynonymGroup := mkSynonymGroup {
  canonicalKeyword : string;
  members : list string
}.

(** Modelled from the spec: [eliza.js] is not among the sources. Section 6:
    what rule-table load accepts: rules, synonym groups, fallback responses.
    *)
Record Script := mkScript {
  rules : list Rule;
  synonymGroups : list SynonymGroup;
  fallbackResponses : list string
}.

(** Modelled from the spec: [eliza.js] is not among the sources. The tables
    the spec calls fixed and leaves open: the contraction table of the
    Normalizer (4.1), the memory-specific template set (4.6), and the cap of
    the memory queue (3). *)
Record Options := mkOptions {
  contractions : list (string * list string);
  memoryTemplates : list ReassemblyTemplate;
  memoryCap : nat
}.

(** Modelled from the spec: [eliza.js] is not among the sources. Section 3:
    the usage counter of each (keyword, pattern index), absent meaning 0, the
    memory queue with the oldest entry first, and the fallback counter. *)
Record SessionState := mkSession {
  usageCounters : gmap (string * nat) nat;
  memoryQueue : list string;
  fallbackCounter : nat
}.

(** Modelled from the spec: [eliza.js] is not among the sources. Section 6: a
    fresh, empty session. *)
Definition createSession : SessionState := mkSession ∅ [] 0.

(** Modelled from the spec: [eliza.js] is not among the sources. Section 2:
    the rules indexed by keyword, the synonym table indexed by surface word,
    the fallback list, and the fixed tables. *)
Record RuleStore := mkRuleStore {
  index : gmap string Rule;
  synonymIndex : gmap string string;
  fallbacks : list string;
  options : Options
}.

(** Modelled from the spec: [eliza.js] is not among the sources. Section 7:
    the three ways a script is refused at load time. *)
Inductive ScriptError :=
| DuplicateKeyword (keyword : string)
| NoReassembly (keyword : string) (patternIndex : nat)
| DanglingPlaceholder (keyword : string) (patternIndex : nat).

(** Modelled from the spec: [eliza.js] is not among the sources. Section 7: a
    placeholder without capture at substitution time; the same error stands
    for a rotation through an empty list (memory templates, fallbacks), which
    the spec leaves open. *)
Inductive ConfigurationError :=
| CaptureOutOfRange (keyword : string) (patternIndex : nat)
| NoMemoryTemplate (keyword : string) (patternIndex : nat)
| NoFallback.

(** *** Rule-table load (spec sections 6 and 7) *)

(** Modelled from the spec: [eliza.js] is not among the sources. The number of
    capture slots of a pattern. *)
Definition wildcards (p : list PatternElement) : nat :=
  length (filter (λ e, e = Wildcard) p).

(** Modelled from the spec: [eliza.js] is not among the sources. The capture
    indices a template names. *)
Definition placeholders (t : ReassemblyTemplate) : list nat :=
  omap (λ e, match e with Placeholder i => Some i | Text _ => None end) t.

(** Modelled from the spec: [eliza.js] is not among the sources. Every
    placeholder of [t] names one of [n] captures. *)
Definition templateFits (n : nat) (t : ReassemblyTemplate) : bool :=
  forallb (λ i, i <? n) (placeholders t).

(** Modelled from the spec: [eliza.js] is not among the sources. Section 6: a
    pattern is refused for having no reassembly template or a placeholder
    without wildcard. *)
Definition checkPattern (kw : string) (i : nat) (p : DecompositionPattern)
    : result ScriptError unit :=
  match reassemblies p with
  | [] => Err (NoReassembly kw i)
  | ts => if forallb (templateFits (wildcards (pattern p))) ts
          then Ok tt else Err (DanglingPlaceholder kw i)
  end.

(** Modelled from the spec: [eliza.js] is not among the sources. The patterns
    of a rule are checked in order, each under its index. *)
Fixpoint checkPatterns (kw : string) (i : nat) (ps : list DecompositionPattern)
    : result ScriptError unit :=
  match ps with
  | [] => Ok tt
  | p :: ps' => _ ← checkPattern kw i p ; checkPatterns kw (S i) ps'
  end.

(** Modelled from the spec: [eliza.js] is not among the sources. Sections 2
    and 6: load goes through the rules in order, refuses a keyword already
    indexed and a defective pattern, and indexes the rule by its keyword. *)
Fixpoint buildIndex (rs : list Rule) (idx : gmap string Rule)
    : result ScriptError (gmap string Rule) :=
  match rs with
  | [] => Ok idx
  | r :: rs' =>
      match idx !! keyword r with
      | Some _ => Err (DuplicateKeyword (keyword r))
      | None =>
          _ ← checkPatterns (keyword r) 0 (decompositions r) ;
          buildIndex rs' (<[keyword r := r]> idx)
      end
  end.

(** Modelled from the spec: [eliza.js] is not among the sources. Section 3:
    surface word to canonical keyword; a word listed twice keeps the group
    that comes first. *)
Definition buildSynonyms (gs : list SynonymGroup) : gmap string string :=
  foldr (λ g acc,
           foldr (λ w acc', <[w := canonicalKeyword g]> acc') acc (members g))
        ∅ gs.

(** Modelled from the spec: [eliza.js] is not among the sources. Section 6:
    rule-table load. *)
Definition load (opts : Options) (script : Script) : result ScriptError RuleStore :=
  idx ← buildIndex (rules script) ∅ ;
  Ok (mkRuleStore idx (buildSynonyms (synonymGroups script))
                  (fallbackResponses script) opts).

(** A pattern load lets through: it has a template, and every placeholder of
    every template has its wildcard. *)
Definition patternOk (p : DecompositionPattern) : Prop :=
  reassemblies p ≠ []
  ∧ ∀ t i, t ∈ reassemblies p → Placeholder i ∈ t → i < wildcards (pattern p).

(** The three defects the load contract names (section 6): a keyword is
    duplicated. *)
Definition duplicatedKeyword (script : Script) : Prop :=
  ¬ NoDup (keyword <$> rules script).

(** A decomposition pattern has zero reassembly templates. *)
Definition patternWithoutTemplate (script : Script) : Prop :=
  ∃ r p, r ∈ rules script ∧ p ∈ decompositions r ∧ reassemblies p = [].

(** A reassembly placeholder index has no corresponding wildcard in its
    pattern. *)
Definition placeholderWithoutWildcard (script : Script) : Prop :=
  ∃ r p t i, r ∈ rules script ∧ p ∈ decompositions r ∧ t ∈ reassemblies p
             ∧ Placeholder i ∈ t ∧ wildcards (pattern p) ≤ i.

(** The script has one of the three defects. *)
Definition malformed (script : Script) : Prop :=
  duplicatedKeyword script ∨ patternWithoutTemplate script
  ∨ placeholderWithoutWildcard script.

(** *** Normalizer (spec section 4.1) *)

(** Modelled from the spec: [eliza.js] is not among the sources. Section 4.1,
    case folding: the capital letters A to Z. *)
Definition isUpper (c : ascii) : bool :=
  (65 <=? nat_of_ascii c) && (nat_of_ascii c <=? 90).

(** Modelled from the spec: [eliza.js] is not among the sources. Section 4.1,
    case folding. *)
Definition toLower (c : ascii) : ascii :=
  if isUpper c then ascii_of_nat (nat_of_ascii c + 32) else c.

(** Modelled from the spec: [eliza.js] is not among the sources. Section 4.1:
    letters, digits and the apostrophe make up tokens; everything else is a
    token boundary. *)
Definition isWordChar (c : ascii) : bool :=
  let n := nat_of_ascii c in
  ((97 <=? n) && (n <=? 122)) || ((65 <=? n) && (n <=? 90))
  || ((48 <=? n) && (n <=? 57)) || (n =? 39).

(** Modelled from the spec: [eliza.js] is not among the sources. The token
    read so far, if any. *)
Definition flush (cur : string) : list string :=
  match cur with EmptyString => [] | _ => [cur] end.

(** Modelled from the spec: [eliza.js] is not among the sources. Section 4.1:
    the tokens of the text, case-folded, [cur] being the token under way. *)
Fixpoint tokenize (s : string) (cur : string) : list string :=
  match s with
  | EmptyString => flush cur
  | String c s' =>
      if isWordChar c then tokenize s' (cur +:+ String (toLower c) EmptyString)
      else flush cur ++ tokenize s' EmptyString
  end.

(** Modelled from the spec: [eliza.js] is not among the sources. Section 4.1:
    a contraction is replaced by its expansion. *)
Definition expand (table : list (string * list string)) (t : string) : list string :=
  match list_find (λ e, e.1 = t) table with
  | Some (_, (_, ws)) => ws
  | None => [t]
  end.

(** Modelled from the spec: [eliza.js] is not among the sources. Section 4.1:
    case-fold, split at punctuation and white space, expand contractions. *)
Definition normalize (opts : Options) (input : string) : list string :=
  tokenize input EmptyString ≫= expand (contractions opts).

(** *** Keyword Selector (spec section 4.2) *)

(** Modelled from the spec: [eliza.js] is not among the sources. Section 4.2:
    a token resolved through its synonym group. *)
Definition canonical (store : RuleStore) (t : string) : string :=
  default t (synonymIndex store !! t).

(** Modelled from the spec: [eliza.js] is not among the sources. Section 4.2:
    the rule a token stands for, if any. *)
Definition candidate (store : RuleStore) (t : string) : option Rule :=
  index store !! canonical store t.

(** Modelled from the spec: [eliza.js] is not among the sources. Section 4.2,
    one step of the scan: a later candidate replaces the best so far only when
    its rank is strictly higher. *)
Definition better (store : RuleStore) (best : option Rule) (t : string) : option Rule :=
  match candidate store t, best with
  | Some r, Some b => if (rank b <? rank r)%Z then Some r else Some b
  | Some r, None => Some r
  | None, _ => best
  end.

(** Modelled from the spec: [eliza.js] is not among the sources. Section 4.2:
    scan the tokens from the left, keep the highest rank, and on equal rank
    the candidate met first. *)
Definition selectKeyword (store : RuleStore) (tokens : list string) : option Rule :=
  foldl (better store) None tokens.

(** [best] is a candidate met at position [i]; no candidate outranks it, and
    no candidate of its rank stands before [i]. *)
Definition topAt (store : RuleStore) (tokens : list string) (best : Rule) (i : nat)
    : Prop :=
  (∃ t, tokens !! i = Some t ∧ candidate store t = Some best)
  ∧ ∀ j t' r', tokens !! j = Some t' → candidate store t' = Some r' →
      (rank r' ≤ rank best)%Z ∧ (rank r' = rank best → i ≤ j).

(** *** Decomposition Matcher (spec section 4.3) *)

(** Modelled from the spec: [eliza.js] is not among the sources. Section 4.3
    and the design notes: a wildcard takes the longest run of tokens for which
    the rest of the pattern, [k], still matches what follows. *)
Definition capture {A} (k : list string → option (list A))
    (wrap : list string → A) (tokens : list string) : nat → option (list A) :=
  fix go (n : nat) :=
    match k (drop n tokens) with
    | Some caps => Some (wrap (take n tokens) :: caps)
    | None => match n with 0 => None | S n' => go n' end
    end.

(** Modelled from the spec: [eliza.js] is not among the sources. Section 4.3:
    literals match token by token, wildcards capture, the whole input is
    consumed; one capture per wildcard, in order. *)
Fixpoint matchPattern (p : list PatternElement) (tokens : list string)
    : option (list (list string)) :=
  match p with
  | [] => match tokens with [] => Some [] | _ => None end
  | Literal w :: p' =>
      match tokens with
      | t :: ts => if decide (t = w) then matchPattern p' ts else None
      | [] => None
      end
  | Wildcard :: p' => capture (matchPattern p') (λ c, c) tokens (length tokens)
  end.

(** Modelled from the spec: [eliza.js] is not among the sources. Section 4.3:
    the patterns of a rule are tried in order; the first that matches wins,
    and comes with its index and its captures. *)
Fixpoint firstMatch (ps : list DecompositionPattern) (i : nat) (tokens : list string)
    : option (nat * DecompositionPattern * list (list string)) :=
  match ps with
  | [] => None
  | p :: ps' =>
      match matchPattern (pattern p) tokens with
      | Some caps => Some (i, p, caps)
      | None => firstMatch ps' (S i) tokens
      end
  end.

(** *** Pronoun/Reflection Transformer (spec section 4.4) *)

(** Modelled from the spec: [eliza.js] is not among the sources. Section 4.4:
    the substitution table, read in both directions. *)
Definition reflections : list (string * string) :=
  [("i", "you"); ("me", "you"); ("my", "your"); ("mine", "yours");
   ("myself", "yourself"); ("am", "are")].

(** Modelled from the spec: [eliza.js] is not among the sources. Section 4.4:
    a word of the left column becomes its right neighbour, a word of the right
    column the first left neighbour it has, any other word stays. *)
Definition reflectWord (w : string) : string :=
  match list_find (λ e, e.1 = w) reflections with
  | Some (_, (_, second)) => second
  | None =>
      match list_find (λ e, e.2 = w) reflections with
      | Some (_, (first, _)) => first
      | None => w
      end
  end.

(** Modelled from the spec: [eliza.js] is not among the sources. The words of
    a fragment joined by single spaces. *)
Fixpoint unwords (ws : list string) : string :=
  match ws with
  | [] => ""
  | [w] => w
  | w :: ws' => w +:+ " " +:+ unwords ws'
  end.

(** Modelled from the spec: [eliza.js] is not among the sources. Section 4.4:
    a captured fragment is rewritten word by word, in order. *)
Definition reflect (fragment : list string) : string :=
  unwords (reflectWord <$> fragment).

(** *** Reassembly Generator (spec section 4.5) *)

(** Modelled from the spec: [eliza.js] is not among the sources. Section 4.5:
    each placeholder is replaced by its capture; [None] when a placeholder has
    no capture. *)
Fixpoint fill (t : ReassemblyTemplate) (captures : list string) : option string :=
  match t with
  | [] => Some ""
  | Text span :: t' => (λ rest, span +:+ rest) <$> fill t' captures
  | Placeholder i :: t' =>
      c ← captures !! i; (λ rest, c +:+ rest) <$> fill t' captures
  end.

(** Modelled from the spec: [eliza.js] is not among the sources. Section 3:
    the usage counter of a (keyword, pattern index), 0 until first used. *)
Definition counter (s : SessionState) (key : string * nat) : nat :=
  default 0 (usageCounters s !! key).

(** Modelled from the spec: [eliza.js] is not among the sources. Sections 4.5
    and 4.7: [list[counter % length]]. *)
Definition rotate {A} (l : list A) (c : nat) : option A :=
  l !! (c mod length l).

(** Where a response came from: template [templateIndex] of a pattern, the
    memory queue, or fallback [fallbackIndex]. *)
Inductive Source :=
| Reassembled (keyword : string) (patternIndex templateIndex : nat)
| Recalled
| Fallback (fallbackIndex : nat).

(** A response with its source. *)
Record Turn := mkTurn { response : string; source : Source }.

(** Modelled from the spec: [eliza.js] is not among the sources. Section 4.5:
    take [reassemblies[counter % length]], substitute the captures, store the
    counter plus one. *)
Definition reassemble (kw : string) (i : nat) (p : DecompositionPattern)
    (captures : list string) (s : SessionState)
    : result ConfigurationError (Turn * SessionState) :=
  let c := counter s (kw, i) in
  match rotate (reassemblies p) c with
  | None => Err (CaptureOutOfRange kw i)
  | Some template =>
      match fill template captures with
      | None => Err (CaptureOutOfRange kw i)
      | Some text =>
          Ok (mkTurn text (Reassembled kw i (c mod length (reassemblies p))),
              mkSession (<[(kw, i) := S c]> (usageCounters s))
                        (memoryQueue s) (fallbackCounter s))
      end
  end.

(** *** Memory Mechanism (spec section 4.6) *)

(** Modelled from the spec: [eliza.js] is not among the sources. Section 4.6:
    push on a bounded queue; a full queue loses its oldest entry. *)
Definition push (cap : nat) (m : string) (q : list string) : list string :=
  if cap <=? length q then tail q ++ [m] else q ++ [m].

(** Modelled from the spec: [eliza.js] is not among the sources. Section 4.6:
    the statement to remember is reassembled from the memory-specific template
    set, rotated by the pattern's usage counter, and pushed. *)
Definition memorize (store : RuleStore) (kw : string) (i : nat)
    (captures : list string) (s : SessionState)
    : result ConfigurationError SessionState :=
  match rotate (memoryTemplates (options store)) (counter s (kw, i)) with
  | None => Err (NoMemoryTemplate kw i)
  | Some template =>
      match fill template captures with
      | None => Err (NoMemoryTemplate kw i)
      | Some statement =>
          Ok (mkSession (usageCounters s)
                        (push (memoryCap (options store)) statement (memoryQueue s))
                        (fallbackCounter s))
      end
  end.

(** *** Fallback Rotation (spec section 4.7) and the no-match outcome *)

(** Modelled from the spec: [eliza.js] is not among the sources. Sections 4.6
    and 4.7: with no match, the oldest memory is popped and returned; with an
    empty queue the next fallback is. *)
Definition noMatch (store : RuleStore) (s : SessionState)
    : result ConfigurationError (Turn * SessionState) :=
  match memoryQueue s with
  | oldest :: q =>
      Ok (mkTurn oldest Recalled,
          mkSession (usageCounters s) q (fallbackCounter s))
  | [] =>
      let c := fallbackCounter s in
      match rotate (fallbacks store) c with
      | None => Err NoFallback
      | Some text =>
          Ok (mkTurn text (Fallback (c mod length (fallbacks store))),
              mkSession (usageCounters s) [] (S c))
      end
  end.

(** *** One turn (spec section 2, control flow) *)

(** Modelled from the spec: [eliza.js] is not among the sources. Sections 4.2
    and 4.3: the rule selected for the tokens and the first of its patterns
    that matches them; [None] is the no-match outcome, for want of a keyword
    or of a matching pattern. *)
Definition matchOf (store : RuleStore) (tokens : list string)
    : option (Rule * (nat * DecompositionPattern * list (list string))) :=
  rule ← selectKeyword store tokens;
  m ← firstMatch (decompositions rule) 0 tokens;
  Some (rule, m).

(** Modelled from the spec: [eliza.js] is not among the sources. Section 2,
    control flow of a turn: Normalizer, Keyword Selector, Decomposition
    Matcher, Pronoun Transformer, memory push, Reassembly Generator; no
    keyword or no matching pattern is the no-match outcome. *)
Definition turn (store : RuleStore) (input : string) (s : SessionState)
    : result ConfigurationError (Turn * SessionState) :=
  match matchOf store (normalize (options store) input) with
  | None => noMatch store s
  | Some (rule, (i, p, captures)) =>
      let captures := reflect <$> captures in
      s ← (if memoryFlag p then memorize store (keyword rule) i captures s
           else Ok s) ;
      reassemble (keyword rule) i p captures s
  end.

(** An utterance hits pattern [i] of the rule for [kw]. *)
Definition hits (store : RuleStore) (input : string) (kw : string) (i : nat)
    (p : DecompositionPattern) (captures : list (list string)) : Prop :=
  ∃ rule, matchOf store (normalize (options store) input) = Some (rule, (i, p, captures))
          ∧ keyword rule = kw.

(** An utterance nothing matches. *)
Definition unmatched (store : RuleStore) (input : string) : Prop :=
  matchOf store (normalize (options store) input) = None.

(** The rule data [respond] needs beyond what load checks: a fallback to
    rotate through, and, for every memory-flagged pattern, memory templates
    whose placeholders the pattern can fill. *)
Definition wellFormed (opts : Options) (script : Script) : Prop :=
  fallbackResponses script ≠ []
  ∧ ∀ r p, r ∈ rules script → p ∈ decompositions r → memoryFlag p = true →
      memoryTemplates opts ≠ []
      ∧ ∀ t, t ∈ memoryTemplates opts → templateFits (wildcards (pattern p)) t = true.

(** Modelled from the spec: [eliza.js] is not among the sources. Section 6:
    the entry point of the engine. *)
Definition respond (store : RuleStore) (inputText : string) (session : SessionState)
    : result ConfigurationError (string * SessionState) :=
  r ← turn store inputText session ; Ok (response r.1, r.2).

(** Modelled from the spec: [eliza.js] is not among the sources. A
    conversation: the turns of a list of inputs, threaded through the session.
    *)
Fixpoint converse (store : RuleStore) (inputs : list string) (s : SessionState)
    : result ConfigurationError (list Turn * SessionState) :=
  match inputs with
  | [] => Ok ([], s)
  | input :: rest =>
      r ← turn store input s ;
      rs ← converse store rest r.2 ;
      Ok (r.1 :: rs.1, rs.2)
  end.

(** Modelled from the spec: [eliza.js] is not among the sources. Sections 6
    and 7: load, then serve; nothing is answered unless the script loads. *)
Definition serve (opts : Options) (script : Script) (inputs : list string)
    : result ScriptError (result ConfigurationError (list string)) :=
  store ← load opts script ;
  Ok (r ← converse store inputs createSession ; Ok (response <$> r.1 : list string)).

(** Modelled from the spec: [eliza.js] is not among the sources. What the
    adapters import: [respond] on the session the module holds; a
    configuration error is thrown. *)
Definition getBotResponse (store : RuleStore) (message : string) (session : SessionState)
    : completion string * SessionState :=
  match respond store message session with
  | Ok (text, session') => (Return text, session')
  | Err _ => (Throw (mkError "ConfigurationError" "malformed rule data"), session)
  end.

End Eliza.

(** ** ElizaService, the two revisions in the sources

    Both import [getBotResponse] from [eliza.js]; here it is an argument,
    together with the state [S] that module keeps between calls. *)

(** The promise [getResponse] returns: a timer of [delay] milliseconds, and
    how the promise is settled from the timer's callback. *)
Record TimedPromise := mkTimedPromise { delay : nat; outcome : settlement string }.

(** The revision that resolves with [message]. *)
Module ElizaService_part_001.
Section WithEngine.
Context {S : Type} (getBotResponse : string → S → completion string * S).

(** An exception inside the timer callback is not seen by the promise,
    which then stays pending. *)
Definition getResponse {H : Type} (message : string) (history : H) (st : S)
    : TimedPromise * S :=
  match getBotResponse message st with
  | (Return response, st') => (mkTimedPromise 300 (Resolved message), st')
  | (Throw _, st') => (mkTimedPromise 300 Pending, st')
  end.

Definition getName : string := "Eliza (Local)".

End WithEngine.
End ElizaService_part_001.

(** The revision that resolves with [response] (both copies agree). *)
Module ElizaService_part_005.
Section WithEngine.
Context {S : Type} (getBotResponse : string → S → completion string * S).

Definition getResponse {H : Type} (message : string) (history : H) (st : S)
    : TimedPromise * S :=
  match getBotResponse message st with
  | (Return response, st') => (mkTimedPromise 300 (Resolved response), st')
  | (Throw _, st') => (mkTimedPromise 300 Pending, st')
  end.

Definition getName : string := "Eliza (Local)".

End WithEngine.
End ElizaService_part_005.

(** ** ChatController (the revision with the three providers) *)

Module ChatController.
Import ChatModel.

(** The calls the controller makes on the view, in the order made. *)
Inductive ViewEvent :=
| SetInputDisabled (disabled : bool)
| ShowTypingIndicator
| HideTypingIndicator
| ShowError (message : string)
| ShowSuccess (message : string)
| ShowProviderStatus (message : string) (kind : string)
| ShowApiKeyInput
| HideApiKeyInput
| SetApiKeyStatus (hasKey : bool).

(** The model with its store, and what the view was told. *)
Record State := mkState { model : World; view : list ViewEvent }.

(** A value of [crypto.randomUUID()] and one of [Date.now()], as one call
    of [create] draws them. *)
Definition Stamp : Type := string * N.

(** The text the [catch] of [handleSendMessage] puts in the chat. *)
Definition errorText (e : error) : string :=
  "Sorry, I encountered an error: " +:+ errMessage e +:+ ". " +:+
  (if includes "API key" (errMessage e) then "Please check your API key."
   else if includes "quota" (errMessage e) then "Try again later or use Eliza mode."
   else if includes "Rate limit" (errMessage e)
        then "Rate limit exceeded. Please wait a moment."
        else "Please try again.").

(** The [catch] block of [handleSendMessage]; its own [create] may throw,
    which rejects the promise of the handler. *)
Definition recover (e : error) (stamp : Stamp) (st : State) : settlement unit * State :=
  let view := view st ++ [HideTypingIndicator; SetInputDisabled false] in
  match create (errorText e) false stamp.1 stamp.2 (model st) with
  | (Throw e', w) => (Rejected e', mkState w view)
  | (Return _, w) => (Resolved tt, mkState w (view ++ [ShowError (errMessage e)]))
  end.

Section WithService.
(** The current service: its [getResponse], by the way the promise settles,
    and the state the service keeps. *)
Context {S : Type} (getResponse : string → list Message → S → settlement string * S).

(** [handleSendMessage(text)]; the stamps are those of the three [create]
    calls of the method: user message, bot response, error message.  A
    service promise that never settles leaves the handler suspended. *)
Definition handleSendMessage (text : string) (user bot failure : Stamp)
    (st : State) (service : S) : settlement unit * State * S :=
  match create text true user.1 user.2 (model st) with
  | (Throw e, w) => (recover e failure (mkState w (view st)), service)
  | (Return _, w) =>
      let view := view st ++ [SetInputDisabled true; ShowTypingIndicator] in
      let history := getAll w in
      match getResponse text history service with
      | (Pending, service') => (Pending, mkState w view, service')
      | (Rejected e, service') => (recover e failure (mkState w view), service')
      | (Resolved botResponse, service') =>
          let view := view ++ [HideTypingIndicator] in
          match create botResponse false bot.1 bot.2 w with
          | (Throw e, w') => (recover e failure (mkState w' view), service')
          | (Return _, w') =>
              (Resolved tt, mkState w' (view ++ [SetInputDisabled false]), service')
          end
      end
  end.

(** The text the inner [catch] of [handleEditMessage] puts in the chat. *)
Definition regenerateErrorText (e : error) : string :=
  "Sorry, I couldn't regenerate a response: " +:+ errMessage e +:+ ". " +:+
  (if includes "API key" (errMessage e) then "Please check your API key."
   else if includes "quota" (errMessage e) then "Try again later or use Eliza mode."
   else "Please try again.").

(** [messagesToDelete.forEach(msg => this.model.delete(msg.id))]: the first
    [delete] that throws ends the loop. *)
Fixpoint deleteEach (messagesToDelete : list Message) (w : World)
    : completion unit * World :=
  match messagesToDelete with
  | [] => (Return tt, w)
  | msg :: rest =>
      match delete (id msg) w with
      | (Throw e, w') => (Throw e, w')
      | (Return _, w') => deleteEach rest w'
      end
  end.

(** [handleEditMessage(messageId, newText)]; [now] is the [Date.now()] of
    [update], the stamps are those of the two [create] calls. *)
Definition handleEditMessage (messageId newText : string) (now : N)
    (bot failure : Stamp) (st : State) (service : S)
    : settlement unit * State * S :=
  let caught (e : error) (w : World) (view : list ViewEvent) :=
    (Resolved tt, mkState w (view ++ [ShowError (errMessage e)]), service) in
  match update messageId newText now (model st) with
  | (Throw e, w) => caught e w (view st)
  | (Return None, w) =>
      (Resolved tt, mkState w (view st ++ [ShowError "Message not found"]), service)
  | (Return (Some _), w) =>
      let view :=
        view st ++ [ShowSuccess "Message updated - regenerating AI response..."] in
      let allMessages := getAll w in
      match find messageId allMessages with
      | None => (Resolved tt, mkState w view, service)
      | Some (editedIndex, _) =>
          let messagesToDelete := drop (editedIndex + 1) allMessages in
          match deleteEach messagesToDelete w with
          | (Throw e, w') => caught e w' view
          | (Return _, w') =>
              let view := view ++ [SetInputDisabled true; ShowTypingIndicator] in
              let history := getAll w' in
              let failed (e : error) (w : World) (view : list ViewEvent) service' :=
                let view := view ++ [HideTypingIndicator; SetInputDisabled false] in
                match create (regenerateErrorText e) false failure.1 failure.2 w with
                | (Throw e', w'') =>
                    (Resolved tt, mkState w'' (view ++ [ShowError (errMessage e')]),
                     service')
                | (Return _, w'') =>
                    (Resolved tt,
                     mkState w'' (view ++ [ShowError ("Failed to regenerate response: "
                                                       +:+ errMessage e)]),
                     service')
                end in
              match getResponse newText history service with
              | (Pending, service') => (Pending, mkState w' view, service')
              | (Rejected e, service') => failed e w' view service'
              | (Resolved botResponse, service') =>
                  let view := view ++ [HideTypingIndicator] in
                  match create botResponse false bot.1 bot.2 w' with
                  | (Throw e, w'') => failed e w'' view service'
                  | (Return _, w'') =>
                      (Resolved tt, mkState w'' (view ++ [SetInputDisabled false]),
                       service')
                  end
              end
          end
      end
  end.

End WithService.

(** The bot message [handleSendMessage] stores for the way the service
    promise settled: the response, or the error text when the service
    rejected or the response was refused as empty. *)
Definition replyTo (outcome : settlement string) (bot failure : Stamp)
    : option Message :=
  match outcome with
  | Resolved botResponse =>
      if emptyText botResponse
      then Some (mkMessage failure.1 (errorText (Error "Message text cannot be empty"))
                           false failure.2 false None)
      else Some (mkMessage bot.1 (trim botResponse) false bot.2 false None)
  | Rejected e => Some (mkMessage failure.1 (errorText e) false failure.2 false None)
  | Pending => None
  end.

(** The same for [handleEditMessage]. *)
Definition regeneratedFor (outcome : settlement string) (bot failure : Stamp)
    : option Message :=
  match outcome with
  | Resolved botResponse =>
      if emptyText botResponse
      then Some (mkMessage failure.1
                   (regenerateErrorText (Error "Message text cannot be empty"))
                   false failure.2 false None)
      else Some (mkMessage bot.1 (trim botResponse) false bot.2 false None)
  | Rejected e =>
      Some (mkMessage failure.1 (regenerateErrorText e) false failure.2 false None)
  | Pending => None
  end.

(** [ElizaService.getResponse] (the revision that resolves with the
    response) as the controller's current service, over any engine. *)
Definition elizaService {S : Type}
    (getBotResponse : string → S → completion string * S)
    (text : string) (history : list Message) (st : S) : settlement string * S :=
  let r := ElizaService_part_005.getResponse getBotResponse text history st in
  (outcome r.1, r.2).

(** The service object the controller holds in [currentService]. *)
Inductive Service :=
| Eliza
| Gemini (apiKey : string)
| OpenAI (apiKey : string) (model : string).

(** The controller's provider state: the current service, the two keys it
    holds ([None] for [null]), the two entries of [localStorage] it keeps
    them in, whether that store can be read and written, the provider chosen
    in the drop-down of the view, and what the view was told. *)
Record Providers := mkProviders {
  currentService : Service;
  geminiApiKey : option string;
  openaiApiKey : option string;
  savedGeminiKey : option string;
  savedOpenAIKey : option string;
  keyStoreReadable : bool;
  keyStoreWritable : bool;
  providerSelect : string;
  told : list ViewEvent
}.

(** [if (key)] for a key that may be [null]. *)
Definition held (key : option string) : option string :=
  match key with
  | Some k => if falsy k then None else Some k
  | None => None
  end.

(** The double quote, for the messages that quote a prefix. *)
Definition quote : string := String (ascii_of_nat 34) EmptyString.

Definition _loadSavedApiKeys (p : Providers) : Providers :=
  if keyStoreReadable p then
    let gemini := match held (savedGeminiKey p) with
                  | Some k => Some k
                  | None => geminiApiKey p
                  end in
    let openai := match held (savedOpenAIKey p) with
                  | Some k => Some k
                  | None => openaiApiKey p
                  end in
    mkProviders (currentService p) gemini openai (savedGeminiKey p) (savedOpenAIKey p)
                (keyStoreReadable p) (keyStoreWritable p) (providerSelect p)
                (told p ++ [SetApiKeyStatus true])
  else p.

Definition handleProviderChange (provider : string) (p : Providers) : Providers :=
  let become (service : Service) (events : list ViewEvent) :=
    mkProviders service (geminiApiKey p) (openaiApiKey p) (savedGeminiKey p)
                (savedOpenAIKey p) (keyStoreReadable p) (keyStoreWritable p)
                (providerSelect p) (told p ++ events) in
  if decide (provider = "eliza") then
    become Eliza [ShowProviderStatus "Using Eliza (Local)" "success"; HideApiKeyInput]
  else if decide (provider = "gemini") then
    match held (geminiApiKey p) with
    | Some key =>
        become (Gemini key)
               [ShowProviderStatus "Using Gemini 2.5 Flash" "success"; HideApiKeyInput]
    | None =>
        become Eliza
               [ShowApiKeyInput;
                ShowProviderStatus "Gemini API key required (starts with AIzaSy)" "warning"]
    end
  else if decide (provider = "openai") then
    match held (openaiApiKey p) with
    | Some key =>
        become (OpenAI key "gpt-3.5-turbo")
               [ShowProviderStatus "Using ChatGPT (GPT-3.5 Turbo)" "success";
                HideApiKeyInput]
    | None =>
        become Eliza
               [ShowApiKeyInput;
                ShowProviderStatus "OpenAI API key required (starts with sk-)" "warning"]
    end
  else p.

Definition handleApiKeySubmit (apiKey : string) (p : Providers) : Providers :=
  let currentProvider := providerSelect p in
  let finish (p : Providers) :=
    mkProviders (currentService p) (geminiApiKey p) (openaiApiKey p) (savedGeminiKey p)
                (savedOpenAIKey p) (keyStoreReadable p) (keyStoreWritable p)
                (providerSelect p)
                (told p ++ [HideApiKeyInput; SetApiKeyStatus true;
                            ShowSuccess "API key saved successfully"]) in
  let refuse (message : string) :=
    mkProviders (currentService p) (geminiApiKey p) (openaiApiKey p) (savedGeminiKey p)
                (savedOpenAIKey p) (keyStoreReadable p) (keyStoreWritable p)
                (providerSelect p) (told p ++ [ShowError message]) in
  if decide (currentProvider = "gemini") then
    if negb (GeminiService.isValidApiKey (Some apiKey))
    then refuse ("Invalid Gemini API key format. Should start with "
                 +:+ quote +:+ "AIzaSy" +:+ quote)
    else
      finish
        (mkProviders (Gemini apiKey) (Some apiKey) (openaiApiKey p)
           (if keyStoreWritable p then Some apiKey else savedGeminiKey p)
           (savedOpenAIKey p) (keyStoreReadable p) (keyStoreWritable p)
           (providerSelect p)
           (told p ++ [ShowProviderStatus "Gemini 2.5 Flash activated!" "success"]))
  else if decide (currentProvider = "openai") then
    if negb (OpenAIService.isValidApiKey (Some apiKey))
    then refuse ("Invalid OpenAI API key format. Should start with "
                 +:+ quote +:+ "sk-" +:+ quote)
    else
      finish
        (mkProviders (OpenAI apiKey "gpt-3.5-turbo") (geminiApiKey p) (Some apiKey)
           (savedGeminiKey p)
           (if keyStoreWritable p then Some apiKey else savedOpenAIKey p)
           (keyStoreReadable p) (keyStoreWritable p) (providerSelect p)
           (told p ++ [ShowProviderStatus "ChatGPT (GPT-3.5 Turbo) activated!" "success"]))
  else finish p.

(** What the user does with the provider controls, and a reload of the
    saved keys. *)
Inductive ProviderEvent :=
| Select (provider : string)
| ChangeProvider (provider : string)
| SubmitKey (apiKey : string)
| LoadSavedKeys.

(** [Select] is the drop-down taking a value; the view then calls
    [onProviderChange], which is [ChangeProvider]. *)
Definition react (ev : ProviderEvent) (p : Providers) : Providers :=
  match ev with
  | Select provider =>
      mkProviders (currentService p) (geminiApiKey p) (openaiApiKey p) (savedGeminiKey p)
                  (savedOpenAIKey p) (keyStoreReadable p) (keyStoreWritable p)
                  provider (told p)
  | ChangeProvider provider => handleProviderChange provider p
  | SubmitKey apiKey => handleApiKeySubmit apiKey p
  | LoadSavedKeys => _loadSavedApiKeys p
  end.

Definition reactAll (evs : list ProviderEvent) (p : Providers) : Providers :=
  foldl (λ p ev, react ev p) p evs.

(** A key that is held is one the provider's format check accepts. *)
Definition geminiKeyOk (key : option string) : Prop :=
  ∀ k, held key = Some k → GeminiService.isValidApiKey (Some k) = true.

Definition openaiKeyOk (key : option string) : Prop :=
  ∀ k, held key = Some k → OpenAIService.isValidApiKey (Some k) = true.

(** Every key the controller holds, keeps in the store or has given to the
    current service passes the format check of its provider. *)
Definition keysChecked (p : Providers) : Prop :=
  geminiKeyOk (geminiApiKey p) ∧ openaiKeyOk (openaiApiKey p)
  ∧ geminiKeyOk (savedGeminiKey p) ∧ openaiKeyOk (savedOpenAIKey p)
  ∧ match currentService p with
    | Eliza => True
    | Gemini k => GeminiService.isValidApiKey (Some k) = true
    | OpenAI k m => OpenAIService.isValidApiKey (Some k) = true ∧ m = "gpt-3.5-turbo"
    end.

(** The state the constructor sets before it loads the saved keys. *)
Definition constructed (savedGemini savedOpenAI : option string)
    (readable writable : bool) (selected : string) : Providers :=
  mkProviders Eliza None None savedGemini savedOpenAI readable writable selected [].

(** Whether the input is disabled after the calls made on the view; it is
    enabled until told otherwise. *)
Definition inputDisabled (view : list ViewEvent) : bool :=
  foldl (λ disabled ev,
           match ev with SetInputDisabled d => d | _ => disabled end)
        false view.

End ChatController.

(** ** Sample data, used in the examples *)

Module SampleStore.
Import ChatModel.

(** An empty store that takes every write. *)
Definition storeEmpty : World := mkWorld (mkStorage Missing (λ _, true)) 1 [].

(** A store with a user message and a bot message. *)
Definition storeTwo : World :=
  mkWorld (mkStorage (Stored [mkMessage "a" "Hello" true 10 false None;
                              mkMessage "b" "How do you do." false 11 false None])
                     (λ _, true)) 1 [].

(** An empty store whose quota is used up: every write is refused. *)
Definition storeFull : World := mkWorld (mkStorage Missing (λ _, false)) 1 [].

(** The two messages of [storeTwo] in a store whose quota is used up. *)
Definition storeTwoFull : World :=
  mkWorld (mkStorage (Stored [mkMessage "a" "Hello" true 10 false None;
                              mkMessage "b" "How do you do." false 11 false None])
                     (λ _, false)) 1 [].

End SampleStore.

(** A small script for the dialogue engine. *)

Module Sample.
Import Eliza.

Definition familyRule : Rule :=
  mkRule "mother" 3
    [mkPattern [Wildcard; Literal "mother"; Wildcard]
       [[Text "Tell me more about your family."];
        [Text "Who else in your family "; Placeholder 1; Text "?"]]
       false].

Definition myRule : Rule :=
  mkRule "my" 2
    [mkPattern [Wildcard; Literal "my"; Wildcard]
       [[Text "Your "; Placeholder 1; Text "?"];
        [Text "Why do you say your "; Placeholder 1; Text "?"];
        [Text "Does that suggest anything else which belongs to you?"]]
       true].

Definition dreamRule : Rule :=
  mkRule "dream" 3
    [mkPattern [Wildcard; Literal "dream"; Wildcard]
       [[Text "What does that dream suggest to you?"]]
       false].

Definition script : Script :=
  mkScript [familyRule; myRule; dreamRule]
           [mkSynonymGroup "mother" ["mom"; "mum"]]
           ["Please go on."; "I see."; "Tell me more."].

Definition opts : Options :=
  mkOptions [("don't", ["do"; "not"]); ("i'm", ["i"; "am"])]
            [[Text "Earlier you said your "; Placeholder 1; Text "."];
             [Text "Let's discuss further why your "; Placeholder 1; Text "."]]
            3.

(** The index [load] builds for [script]. *)
Definition store : RuleStore :=
  mkRuleStore (<["dream" := dreamRule]> (<["my" := myRule]> (<["mother" := familyRule]> ∅)))
              (buildSynonyms (synonymGroups script))
              (fallbackResponses script) opts.

(** A template that names capture 2 on a pattern with one wildcard. *)
Definition badScript : Script :=
  mkScript [mkRule "remember" 1
              [mkPattern [Literal "remember"; Wildcard]
                 [[Text "Do you often think of "; Placeholder 2; Text "?"]]
                 false]]
           [] ["Please go on."].

(** The local adapter over the sample engine, as the controller's current
    service. *)
Definition elizaService (text : string) (history : list ChatModel.Message)
    (session : SessionState) : settlement string * SessionState :=
  let r := ElizaService_part_005.getResponse (getBotResponse store) text history session in
  (outcome r.1, r.2).

End Sample.

(** * Verification *)

(** ** ChatModel *)

Section ChatModelFacts.
Import ChatModel.

Lemma string_length_0 (s : string) : String.length s = 0 ↔ s = "".
Proof. destruct s; simpl; split; congruence. Qed.

Lemma allWhiteSpace_trimStart s : allWhiteSpace (trimStart s) = allWhiteSpace s.
Proof.
  induction s as [|c s IH]; simpl; [done|].
  destruct (isWhiteSpace c) eqn:Hc; simpl; [done|]. by rewrite Hc.
Qed.

Lemma trimEnd_empty s : trimEnd s = "" ↔ allWhiteSpace s = true.
Proof.
  induction s as [|c s IH]; simpl; [done|].
  destruct (trimEnd s) eqn:Ht.
  - destruct (isWhiteSpace c); simpl; [tauto|].
    split; [discriminate|done].
  - split; [discriminate|]. intros [_ H]%andb_prop.
    apply IH in H. discriminate.
Qed.

Lemma trim_empty s : trim s = "" ↔ allWhiteSpace s = true.
Proof. unfold trim. by rewrite trimEnd_empty, allWhiteSpace_trimStart. Qed.

Lemma emptyText_blank text : emptyText text = true ↔ blank text.
Proof.
  unfold emptyText, blank. rewrite orb_true_iff, Nat.eqb_eq, string_length_0.
  rewrite trim_empty. destruct text; simpl; intuition congruence.
Qed.

Lemma emptyText_not_blank text : emptyText text = false ↔ ¬ blank text.
Proof. rewrite <-emptyText_blank. by destruct (emptyText text). Qed.

Lemma getAll_notifyObservers w : getAll (_notifyObservers w) = getAll w.
Proof. done. Qed.

Lemma save_accepted messages w :
  accepts (localStorage w) messages = true →
  ∃ w', _save messages w = (Return tt, w') ∧ getAll w' = messages
        ∧ entry (localStorage w') = Stored messages.
Proof. intros H. unfold _save. rewrite H. eauto. Qed.

Lemma save_refused messages w :
  accepts (localStorage w) messages = false →
  _save messages w = (Throw (Error "Failed to save data"), w).
Proof. intros H. unfold _save. by rewrite H. Qed.

(** [find] returns the first message carrying the id, and where it is. *)
Lemma find_None i (l : list Message) :
  find i l = None ↔ ∀ m, m ∈ l → id m ≠ i.
Proof.
  induction l as [|m l IH]; simpl.
  - split; [|done]. intros _ m Hm. by apply elem_of_nil in Hm.
  - destruct (decide (id m = i)) as [He|Hn].
    + split; [done|]. intros H. destruct (H m); [left|done].
    + rewrite fmap_None, IH. split.
      * intros H m' [->|Hm']%elem_of_cons; auto.
      * intros H m' Hm'. apply H. by right.
Qed.

Lemma find_Some i (l : list Message) k m :
  find i l = Some (k, m) ↔
  l !! k = Some m ∧ id m = i ∧ ∀ j m', j < k → l !! j = Some m' → id m' ≠ i.
Proof.
  revert k. induction l as [|m0 l IH]; intros k; simpl.
  - split; [done|]. by intros [? _].
  - destruct (decide (id m0 = i)) as [He|Hn].
    + split.
      * intros [= <- <-]. split_and!; [done..|]. intros j m' Hj. lia.
      * intros (Hk & Hi & Hfirst). destruct k as [|k]; [by simplify_eq/=|].
        destruct (Hfirst 0 m0); [lia|done..].
    + rewrite fmap_Some. split.
      * intros ([k' m'] & Hf & [= -> ->]). apply IH in Hf as (Hk & Hi & Hfirst).
        split_and!; [done..|]. intros [|j] m'' Hj Hl; simplify_eq/=; [done|].
        eapply Hfirst; [|done]. lia.
      * intros (Hk & Hi & Hfirst). destruct k as [|k]; [by simplify_eq/=|].
        exists (k, m). split; [|done]. apply IH. split_and!; [done..|].
        intros j m' Hj Hl. apply (Hfirst (S j) m'); [lia|done].
Qed.

End ChatModelFacts.

Section ChatModelClaims.
Import ChatModel SampleStore.

Lemma create_blank text isUser uuid now w :
  blank text →
  create text isUser uuid now w = (Throw (Error "Message text cannot be empty"), w).
Proof. intros H%emptyText_blank. unfold create. by rewrite H. Qed.

Lemma create_refused text isUser uuid now w :
  ¬ blank text →
  accepts (localStorage w)
    (getAll w ++ [mkMessage uuid (trim text) isUser now false None]) = false →
  create text isUser uuid now w = (Throw (Error "Failed to save data"), w).
Proof.
  intros H%emptyText_not_blank Hacc. unfold create. rewrite H. cbv zeta.
  by rewrite (save_refused _ _ Hacc).
Qed.

(** C8, as the code has it.  While the store takes the write, [create]
    throws exactly when the text is empty or white space only.  On such text
    it throws "Message text cannot be empty" and leaves the world as it was,
    whatever the store would do.  On any other text, when the store takes
    the write, it returns the new message, whose text is the trimmed input
    and whose [edited] flag is off, and the stored list is the old one with
    that one message added at its end; when the store refuses the write, it
    throws "Failed to save data" and leaves the world, the stored list with
    it, as it was. *)
Theorem ChatModel_create_spec text isUser uuid now w :
  let newMessage := mkMessage uuid (trim text) isUser now false None in
  let accepted := accepts (localStorage w) (getAll w ++ [newMessage]) in
  (accepted = true → (∃ e, (create text isUser uuid now w).1 = Throw e) ↔ blank text)
  ∧ (blank text →
     create text isUser uuid now w = (Throw (Error "Message text cannot be empty"), w))
  ∧ (¬ blank text → accepted = true →
     (create text isUser uuid now w).1 = Return newMessage
     ∧ getAll (create text isUser uuid now w).2 = getAll w ++ [newMessage])
  ∧ (¬ blank text → accepted = false →
     create text isUser uuid now w = (Throw (Error "Failed to save data"), w)
     ∧ getAll (create text isUser uuid now w).2 = getAll w).
Proof.
  intros newMessage accepted.
  assert (Hok : ¬ blank text → accepted = true →
     (create text isUser uuid now w).1 = Return newMessage
     ∧ getAll (create text isUser uuid now w).2 = getAll w ++ [newMessage]).
  { intros H%emptyText_not_blank Hacc. unfold create, accepted, newMessage in *.
    rewrite H. cbv zeta.
    destruct (save_accepted _ _ Hacc) as (w' & -> & Hw' & _). simpl.
    by rewrite getAll_notifyObservers. }
  split_and!; [|by apply create_blank|done|].
  - intros Hacc. split.
    + intros [e He]. destruct (emptyText text) eqn:Hb; [by apply emptyText_blank|].
      apply emptyText_not_blank in Hb. destruct (Hok Hb Hacc) as [Hr _]. congruence.
    + intros H. rewrite create_blank by done. eauto.
  - intros Hnb Hacc. by rewrite (create_refused _ _ _ _ _ Hnb Hacc).
Qed.

(** An accepted write of padded text stores the trimmed text; with the quota
    used up the same call throws and the stored list stays as it is. *)
Lemma ChatModel_create_spec_witness :
  ((create "  Hi there " true "c" 12 storeTwo).1
     = Return (mkMessage "c" "Hi there" true 12 false None)
   ∧ getAll (create "  Hi there " true "c" 12 storeTwo).2
     = getAll storeTwo ++ [mkMessage "c" "Hi there" true 12 false None])
  ∧ (create "  Hi there " true "c" 12 storeFull
       = (Throw (Error "Failed to save data"), storeFull)
     ∧ getAll (create "  Hi there " true "c" 12 storeFull).2 = getAll storeFull).
Proof.
  assert (Hnb : ¬ blank "  Hi there ") by (intros [H|H]; discriminate H).
  split.
  - apply (ChatModel_create_spec "  Hi there " true "c" 12 storeTwo);
      [exact Hnb|reflexivity].
  - apply (ChatModel_create_spec "  Hi there " true "c" 12 storeFull);
      [exact Hnb|reflexivity].
Defined.

(** C8 as worded fails: with the quota used up, [create] throws on text that
    is neither empty nor white space. *)
Lemma ChatModel_create_throws_on_text :
  ¬ ((∃ e, (create "Hi" true "c" 12 storeFull).1 = Throw e) ↔ blank "Hi").
Proof.
  intros [H _]. destruct H as [H|H]; [|discriminate H..].
  by exists (Error "Failed to save data").
Qed.

Lemma update_blank i newText now w :
  blank newText →
  update i newText now w = (Throw (Error "Message text cannot be empty"), w).
Proof. intros H%emptyText_blank. unfold update. by rewrite H. Qed.

Lemma update_refused i newText now w k m :
  ¬ blank newText → target i (getAll w) k m → isUser m = true →
  accepts (localStorage w) (<[k := edit newText now m]> (getAll w)) = false →
  update i newText now w = (Throw (Error "Failed to save data"), w).
Proof.
  intros H%emptyText_not_blank Ht%find_Some Hu Hacc.
  unfold update. rewrite H. cbv zeta. rewrite Ht, Hu. simpl.
  by rewrite (save_refused _ _ Hacc).
Qed.

(** C9, as the code has it.  For new text that is empty or white space
    only, [update] throws "Message text cannot be empty" before it reads the
    store, whatever the id, and the world is as before.  For any other new
    text: when no stored message has the id, [update] returns null and the
    world is as before; when the first message with the id is a bot message
    it throws and the world is as before; when it is a user message and the
    store takes the write, [update] returns that message with the trimmed
    text, [edited] set and [editedAt] stamped, the stored list is the old one
    with that position replaced, and every other position is as it was; when
    it is a user message and the store refuses the write, [update] throws
    "Failed to save data" and the world, the stored list with it, is as
    before. *)
Theorem ChatModel_update_spec i newText now w :
  (blank newText →
   update i newText now w = (Throw (Error "Message text cannot be empty"), w))
  ∧ (¬ blank newText →
     ((∀ m, m ∈ getAll w → id m ≠ i) → update i newText now w = (Return None, w))
     ∧ (∀ k m, target i (getAll w) k m →
         (isUser m = false →
          update i newText now w = (Throw (Error "Cannot edit bot messages"), w))
         ∧ (isUser m = true →
            accepts (localStorage w) (<[k := edit newText now m]> (getAll w)) = true →
            (update i newText now w).1 = Return (Some (edit newText now m))
            ∧ getAll (update i newText now w).2 = <[k := edit newText now m]> (getAll w)
            ∧ getAll (update i newText now w).2 !! k = Some (edit newText now m)
            ∧ ∀ j, j ≠ k → getAll (update i newText now w).2 !! j = getAll w !! j)
         ∧ (isUser m = true →
            accepts (localStorage w) (<[k := edit newText now m]> (getAll w)) = false →
            update i newText now w = (Throw (Error "Failed to save data"), w)
            ∧ getAll (update i newText now w).2 = getAll w))).
Proof.
  split; [by apply update_blank|].
  intros Hnb. pose proof Hnb as H%emptyText_not_blank. split.
  - intros Hno%find_None. unfold update. rewrite H. cbv zeta. by rewrite Hno.
  - intros k m Ht. pose proof Ht as Hfind%find_Some. pose proof Ht as (Hk & _ & _).
    split_and!.
    + intros Hu. unfold update. rewrite H. cbv zeta. by rewrite Hfind, Hu.
    + intros Hu Hacc. unfold update. rewrite H. cbv zeta. rewrite Hfind, Hu. simpl.
      destruct (save_accepted _ _ Hacc) as (w' & -> & Hw' & _). simpl.
      rewrite getAll_notifyObservers, Hw'. split_and!; [done..| |].
      * apply list_lookup_insert_eq. by eapply lookup_lt_Some.
      * intros j Hj. by apply list_lookup_insert_ne.
    + intros Hu Hacc. by rewrite (update_refused _ _ _ _ _ _ Hnb Ht Hu Hacc).
Qed.

(** Editing the user message of [storeTwo] rewrites position 0 only; the
    same edit on a store with its quota used up throws and changes nothing;
    white space as new text throws whatever the id. *)
Lemma ChatModel_update_spec_witness :
  ((update "a" " Good morning " 20 storeTwo).1
     = Return (Some (mkMessage "a" "Good morning" true 10 true (Some 20%N)))
   ∧ getAll (update "a" " Good morning " 20 storeTwo).2 !! 1 = getAll storeTwo !! 1)
  ∧ update "a" " Good morning " 20 storeTwoFull
    = (Throw (Error "Failed to save data"), storeTwoFull)
  ∧ update "zz" "  " 20 storeTwo
    = (Throw (Error "Message text cannot be empty"), storeTwo).
Proof.
  assert (Hnb : ¬ blank " Good morning ") by (intros [H|H]; discriminate H).
  split; [|split].
  - destruct (proj2 (ChatModel_update_spec "a" " Good morning " 20 storeTwo) Hnb)
      as [_ Hupd].
    destruct (Hupd 0 (mkMessage "a" "Hello" true 10 false None)) as (_ & Hedit & _).
    { split_and!; [reflexivity..|]. intros j m' Hj. lia. }
    destruct (Hedit eq_refl eq_refl) as (Hret & _ & _ & Hothers).
    split; [exact Hret|]. apply Hothers. lia.
  - destruct (proj2 (ChatModel_update_spec "a" " Good morning " 20 storeTwoFull) Hnb)
      as [_ Hupd].
    destruct (Hupd 0 (mkMessage "a" "Hello" true 10 false None)) as (_ & _ & Hrefused).
    { split_and!; [reflexivity..|]. intros j m' Hj. lia. }
    exact (proj1 (Hrefused eq_refl eq_refl)).
  - apply (proj1 (ChatModel_update_spec "zz" "  " 20 storeTwo)).
    right. reflexivity.
Defined.

(** C9 as worded fails: asked for an id nobody has, with empty new text,
    [update] throws instead of returning null. *)
Lemma ChatModel_update_throws_on_unknown_id :
  (∀ m, m ∈ getAll storeEmpty → id m ≠ "zz")
  ∧ update "zz" "" 20 storeEmpty
    = (Throw (Error "Message text cannot be empty"), storeEmpty)
  ∧ (update "zz" "" 20 storeEmpty).1 ≠ Return None.
Proof.
  split_and!; [|reflexivity|discriminate].
  intros m Hm. by apply elem_of_nil in Hm.
Qed.

End ChatModelClaims.

(** ** GeminiService *)

Section GeminiServiceClaims.
Import ChatModel GeminiService.

Lemma buildContents_throws message history :
  _buildContents message history
  = Throw (TypeError "contents.psu is not a function").
Proof. reflexivity. Qed.

(** C10: whatever the key, the message and the history, the promise of
    [getResponse] is rejected: for want of a key, or else by the TypeError
    of [contents.psu] in [_buildContents]; and neither class defines the
    [_makeRequest] the method would call next. *)
Theorem GeminiService_getResponse_rejects self message history :
  (∃ e, getResponse self message history = Rejected e)
  ∧ getResponse self message history
    = Rejected (if noApiKey self then Error "Gemini API key is required"
                else TypeError "contents.psu is not a function")
  ∧ (∀ text, getResponse self message history ≠ Resolved text)
  ∧ Array_prototype "psu" = None
  ∧ requestMethods !! "_makeRequest" = None.
Proof.
  assert (Hr : getResponse self message history
    = Rejected (if noApiKey self then Error "Gemini API key is required"
                else TypeError "contents.psu is not a function")).
  { unfold getResponse. destruct (noApiKey self); [done|].
    by rewrite buildContents_throws. }
  split_and!; [by eexists|done| |done..].
  intros text. by rewrite Hr.
Qed.

End GeminiServiceClaims.

(** ** ElizaService *)

Section ElizaServiceClaims.
Import Eliza.
Context {S H : Type} (getBotResponse : string → S → completion string * S).

(** The later revision hands on what the engine answered. *)
Lemma part_005_resolves_response message (history : H) st :
  outcome (ElizaService_part_005.getResponse getBotResponse message history st).1
  = match (getBotResponse message st).1 with
    | Return response => Resolved response
    | Throw _ => Pending
    end.
Proof.
  unfold ElizaService_part_005.getResponse.
  by destruct (getBotResponse message st) as [[response|e] st'].
Qed.

(** The earlier revision hands the message back. *)
Lemma part_001_resolves_message message (history : H) st :
  outcome (ElizaService_part_001.getResponse getBotResponse message history st).1
  = match (getBotResponse message st).1 with
    | Return _ => Resolved message
    | Throw _ => Pending
    end.
Proof.
  unfold ElizaService_part_001.getResponse.
  by destruct (getBotResponse message st) as [[response|e] st'].
Qed.

(** The promise is resolved or stays pending; it is never rejected. *)
Lemma getResponse_never_rejects message (history : H) st e :
  outcome (ElizaService_part_005.getResponse getBotResponse message history st).1
  ≠ Rejected e.
Proof. rewrite part_005_resolves_response. by destruct (getBotResponse _ _).1. Qed.

End ElizaServiceClaims.

(** C1 at "Hello", with the sample script and a fresh session: the engine
    answers "Please go on."; the revision of part_001 resolves with "Hello",
    the message itself, where the revision of part_005 resolves with the
    engine's answer. *)
Theorem ElizaService_part_001_echoes_message :
  let engine := Eliza.getBotResponse Sample.store in
  let history : list ChatModel.Message := [] in
  (engine "Hello" Eliza.createSession).1 = Return "Please go on."
  ∧ outcome (ElizaService_part_001.getResponse engine "Hello" history
               Eliza.createSession).1 = Resolved "Hello"
  ∧ outcome (ElizaService_part_005.getResponse engine "Hello" history
               Eliza.createSession).1 = Resolved "Please go on.".
Proof. vm_compute. done. Qed.

(** ** The dialogue engine: rule-table load *)

Section LoadFacts.
Import Eliza.

Lemma forallb_false {A} (f : A → bool) (l : list A) :
  forallb f l = false → ∃ x, x ∈ l ∧ f x = false.
Proof.
  induction l as [|x l IH]; simpl; [done|].
  destruct (f x) eqn:Hx; simpl.
  - intros (y & Hy & Hf)%IH. exists y. split; [by right|done].
  - intros _. exists x. split; [by left|done].
Qed.

Lemma forallb_true {A} (f : A → bool) (l : list A) :
  forallb f l = true ↔ ∀ x, x ∈ l → f x = true.
Proof.
  induction l as [|x l IH]; simpl.
  - split; [|done]. intros _ y Hy. by apply elem_of_nil in Hy.
  - rewrite andb_true_iff, IH. split.
    + intros [Hx Hl] y [->|Hy]%elem_of_cons; auto.
    + intros Hall. split; [apply Hall; by left|].
      intros y Hy. apply Hall. by right.
Qed.

Lemma elem_of_placeholders i (t : ReassemblyTemplate) :
  i ∈ placeholders t ↔ Placeholder i ∈ t.
Proof.
  unfold placeholders. rewrite list_elem_of_omap. split.
  - intros ([span|j] & Hin & Heq); by simplify_eq.
  - intros Hin. by exists (Placeholder i).
Qed.

Lemma templateFits_true n t :
  templateFits n t = true ↔ ∀ i, Placeholder i ∈ t → i < n.
Proof.
  unfold templateFits. rewrite forallb_true. split.
  - intros Hall i Hi%elem_of_placeholders. by apply Nat.ltb_lt, Hall.
  - intros Hall i Hi%elem_of_placeholders. by apply Nat.ltb_lt, Hall.
Qed.

Lemma templateFits_false n t :
  templateFits n t = false → ∃ i, Placeholder i ∈ t ∧ n ≤ i.
Proof.
  intros (i & Hi%elem_of_placeholders & Hlt%Nat.ltb_ge)%forallb_false. eauto.
Qed.

Lemma checkPattern_Ok kw i p : checkPattern kw i p = Ok tt → patternOk p.
Proof.
  unfold checkPattern, patternOk.
  destruct (reassemblies p) as [|t0 ts] eqn:Hts; [done|].
  destruct (forallb _ _) eqn:Hall; [|done]. intros _. split; [done|].
  intros t j Ht Hj. rewrite forallb_true in Hall.
  eapply templateFits_true; [by apply Hall|done].
Qed.

(** A refused pattern has one of the two pattern defects. *)
Lemma checkPattern_Err kw i p e :
  checkPattern kw i p = Err e →
  reassemblies p = []
  ∨ ∃ t j, t ∈ reassemblies p ∧ Placeholder j ∈ t ∧ wildcards (pattern p) ≤ j.
Proof.
  unfold checkPattern.
  destruct (reassemblies p) as [|t0 ts] eqn:Hts; [by left|].
  destruct (forallb _ _) eqn:Hall; [done|]. intros _. right.
  apply forallb_false in Hall as (t & Ht & Hfit).
  apply templateFits_false in Hfit as (j & Hj & Hle). eauto.
Qed.

Lemma checkPatterns_Ok kw i ps :
  checkPatterns kw i ps = Ok tt → ∀ p, p ∈ ps → patternOk p.
Proof.
  revert i. induction ps as [|p ps IH]; intros i; simpl.
  - intros _ q Hq. by apply elem_of_nil in Hq.
  - destruct (checkPattern kw i p) as [[]|e] eqn:Hp; simpl; [|done].
    intros Hps q [->|Hq]%elem_of_cons; [by eapply checkPattern_Ok|by eapply IH].
Qed.

Lemma checkPatterns_Err kw i ps e :
  checkPatterns kw i ps = Err e →
  ∃ p, p ∈ ps ∧
    (reassemblies p = []
     ∨ ∃ t j, t ∈ reassemblies p ∧ Placeholder j ∈ t ∧ wildcards (pattern p) ≤ j).
Proof.
  revert i. induction ps as [|p ps IH]; intros i; simpl; [done|].
  destruct (checkPattern kw i p) as [[]|e'] eqn:Hp; simpl.
  - intros (q & Hq & Hbad)%IH. exists q. split; [by right|done].
  - intros _. exists p. split; [by left|]. by eapply checkPattern_Err.
Qed.

Lemma checkPatterns_result kw i ps :
  checkPatterns kw i ps = Ok tt ∨ ∃ e, checkPatterns kw i ps = Err e.
Proof. destruct (checkPatterns kw i ps) as [[]|e]; eauto. Qed.

(** What a successful [buildIndex] has seen, and what it built. *)
Lemma buildIndex_Ok rs idx idx' :
  buildIndex rs idx = Ok idx' →
  NoDup (keyword <$> rs)
  ∧ (∀ r, r ∈ rs → idx !! keyword r = None)
  ∧ (∀ r p, r ∈ rs → p ∈ decompositions r → patternOk p)
  ∧ ∀ kw r, idx' !! kw = Some r ↔ (r ∈ rs ∧ keyword r = kw) ∨ idx !! kw = Some r.
Proof.
  revert idx. induction rs as [|r0 rs IH]; intros idx; simpl.
  - intros [= <-]. split_and!.
    + constructor.
    + intros r Hr. by apply elem_of_nil in Hr.
    + intros r p Hr. by apply elem_of_nil in Hr.
    + intros kw r. split; [by right|]. intros [[Hr _]|?]; [|done].
      by apply elem_of_nil in Hr.
  - destruct (idx !! keyword r0) eqn:Hfresh; [done|].
    destruct (checkPatterns_result (keyword r0) 0 (decompositions r0))
      as [Hps|[e Hps]]; rewrite Hps; simpl; [|done].
    intros (Hnd & Hnew & Hpat & Hidx)%IH.
    assert (Hnotin : keyword r0 ∉ keyword <$> rs).
    { intros (r & Hk & Hr)%list_elem_of_fmap. specialize (Hnew r Hr).
      rewrite <-Hk in Hnew. by rewrite lookup_insert_eq in Hnew. }
    split_and!.
    + by constructor.
    + intros r [->|Hr]%elem_of_cons; [done|].
      specialize (Hnew r Hr). rewrite lookup_insert_ne in Hnew; [done|].
      intros Heq. apply Hnotin. rewrite Heq. apply list_elem_of_fmap. eauto.
    + intros r p [->|Hr]%elem_of_cons Hp; [|by eapply Hpat].
      by eapply checkPatterns_Ok.
    + intros kw r. rewrite Hidx. split.
      * intros [[Hr Hk]|Hins]; [left; split; [by right|done]|].
        destruct (decide (keyword r0 = kw)) as [<-|Hne].
        -- rewrite lookup_insert_eq in Hins. simplify_eq. left. split; [by left|done].
        -- rewrite lookup_insert_ne in Hins by done. by right.
      * intros [[[->|Hr]%elem_of_cons Hk]|Hold].
        -- right. subst kw. by rewrite lookup_insert_eq.
        -- left. done.
        -- right. rewrite lookup_insert_ne; [done|]. intros <-. congruence.
Qed.

(** A failed [buildIndex] met an indexed keyword, a repeated keyword or a
    defective pattern. *)
Lemma buildIndex_Err rs idx e :
  buildIndex rs idx = Err e →
  (∃ r, r ∈ rs ∧ is_Some (idx !! keyword r))
  ∨ ¬ NoDup (keyword <$> rs)
  ∨ ∃ r p, r ∈ rs ∧ p ∈ decompositions r ∧
      (reassemblies p = []
       ∨ ∃ t j, t ∈ reassemblies p ∧ Placeholder j ∈ t ∧ wildcards (pattern p) ≤ j).
Proof.
  revert idx. induction rs as [|r0 rs IH]; intros idx; simpl; [done|].
  destruct (idx !! keyword r0) eqn:Hfresh.
  { intros _. left. exists r0. split; [by left|by rewrite Hfresh]. }
  destruct (checkPatterns_result (keyword r0) 0 (decompositions r0))
    as [Hps|[e' Hps]]; rewrite Hps; simpl.
  - intros [(r & Hr & Hin)|[Hdup|(r & p & Hr & Hp & Hbad)]]%IH.
    + destruct (decide (keyword r0 = keyword r)) as [Heq|Hne].
      * right; left. intros Hnd. apply NoDup_cons in Hnd as [Hnotin _].
        apply Hnotin. rewrite Heq. apply list_elem_of_fmap. eauto.
      * left. exists r. split; [by right|]. by rewrite lookup_insert_ne in Hin.
    + right; left. intros Hnd. apply NoDup_cons in Hnd as [_ Hnd]. done.
    + right; right. exists r, p. split_and!; [by right|done..].
  - intros _. right; right.
    apply checkPatterns_Err in Hps as (p & Hp & Hbad).
    exists r0, p. split_and!; [by left|done..].
Qed.

Lemma load_Ok opts script store :
  load opts script = Ok store →
  NoDup (keyword <$> rules script)
  ∧ (∀ r p, r ∈ rules script → p ∈ decompositions r → patternOk p)
  ∧ (∀ kw r, index store !! kw = Some r ↔ r ∈ rules script ∧ keyword r = kw)
  ∧ fallbacks store = fallbackResponses script
  ∧ options store = opts.
Proof.
  unfold load. destruct (buildIndex (rules script) ∅) as [idx|e] eqn:Hidx; [|done].
  simpl. intros [= <-]. apply buildIndex_Ok in Hidx as (Hnd & _ & Hpat & Hlook).
  split_and!; [done..| |done|done].
  intros kw r. simpl. rewrite Hlook, lookup_empty.
  split; [by intros [?|?]|by left].
Qed.

Lemma load_Err opts script e : load opts script = Err e → malformed script.
Proof.
  unfold load. destruct (buildIndex (rules script) ∅) as [idx|e'] eqn:Hidx; [done|].
  intros _. apply buildIndex_Err in Hidx
    as [(r & _ & Hin)|[Hdup|(r & p & Hr & Hp & [Hnone|(t & j & Ht & Hj & Hle)])]].
  - rewrite lookup_empty in Hin. by destruct Hin.
  - by left.
  - right; left. by exists r, p.
  - right; right. by exists r, p, t, j.
Qed.

Lemma malformed_not_Ok opts script store :
  malformed script → load opts script ≠ Ok store.
Proof.
  intros Hbad (Hnd & Hpat & _)%load_Ok.
  destruct Hbad as [Hdup|[(r & p & Hr & Hp & Hnone)|(r & p & t & j & Hr & Hp & Ht & Hj & Hle)]].
  - done.
  - by destruct (Hpat r p Hr Hp) as [Hne _].
  - destruct (Hpat r p Hr Hp) as [_ Hfit]. specialize (Hfit t j Ht Hj). lia.
Qed.

(** After load, the candidates are the rules of the script, each under its
    own keyword. *)
Lemma candidate_registered opts script store t r :
  load opts script = Ok store →
  candidate store t = Some r ↔ r ∈ rules script ∧ keyword r = canonical store t.
Proof.
  intros (_ & _ & Hidx & _)%load_Ok. unfold candidate. apply Hidx.
Qed.

End LoadFacts.

Section LoadClaims.
Import Eliza.

(** C7: load fails with a ScriptError exactly when the script has a
    duplicated keyword, a pattern without reassembly template, or a
    placeholder without its wildcard; then no input is answered; and the
    script whose template names capture 2 on a one-wildcard pattern is
    refused. *)
Theorem load_ScriptError_iff_malformed opts script :
  ((∃ e : ScriptError, load opts script = Err e) ↔ malformed script)
  ∧ (∀ inputs, (∃ e, serve opts script inputs = Err e) ↔ malformed script)
  ∧ serve opts Sample.badScript ["Hello"] = Err (DanglingPlaceholder "remember" 0).
Proof.
  assert (Hload : (∃ e : ScriptError, load opts script = Err e) ↔ malformed script).
  { split.
    - intros [e He]. by eapply load_Err.
    - intros Hbad. destruct (load opts script) as [store|e] eqn:Hl; [|by eexists].
      by destruct (malformed_not_Ok opts script store). }
  split_and!; [done| |done].
  intros inputs. rewrite <-Hload. unfold serve.
  destruct (load opts script) as [store|e]; simpl; split; intros [e' He']; by eauto.
Qed.

End LoadClaims.

(** ** The dialogue engine: Keyword Selector *)

Section SelectorFacts.
Import Eliza.
Context (store : RuleStore).

Lemma selectKeyword_snoc tokens t :
  selectKeyword store (tokens ++ [t]) = better store (selectKeyword store tokens) t.
Proof. unfold selectKeyword. by rewrite foldl_app. Qed.

Lemma selectKeyword_scan tokens :
  match selectKeyword store tokens with
  | None => ∀ t, t ∈ tokens → candidate store t = None
  | Some best => ∃ i, topAt store tokens best i
  end.
Proof.
  induction tokens as [|t tokens IH] using rev_ind.
  { simpl. intros t Ht. by apply elem_of_nil in Ht. }
  rewrite selectKeyword_snoc. unfold better.
  destruct (candidate store t) as [r|] eqn:Hc.
  - destruct (selectKeyword store tokens) as [b|].
    + destruct IH as (i & (t0 & Hi & Hb) & Htop).
      pose proof (lookup_lt_Some _ _ _ Hi) as Hlt.
      destruct (Z.ltb_spec (rank b) (rank r)) as [Hr|Hr].
      * exists (length tokens). split.
        { exists t. split; [|done]. by rewrite lookup_app_r, Nat.sub_diag. }
        intros j t' r' Hj Hc'.
        destruct (decide (j < length tokens)) as [Hjl|Hjl].
        -- rewrite lookup_app_l in Hj by done.
           destruct (Htop j t' r' Hj Hc') as [Hle _]. lia.
        -- apply lookup_lt_Some in Hj as Hjlen. rewrite length_app in Hjlen.
           simpl in Hjlen. assert (j = length tokens) as -> by lia.
           rewrite lookup_app_r, Nat.sub_diag in Hj by done. simplify_eq/=. lia.
      * exists i. split.
        { exists t0. split; [|done]. by rewrite lookup_app_l. }
        intros j t' r' Hj Hc'.
        destruct (decide (j < length tokens)) as [Hjl|Hjl].
        -- rewrite lookup_app_l in Hj by done. by apply (Htop j t' r').
        -- apply lookup_lt_Some in Hj as Hjlen. rewrite length_app in Hjlen.
           simpl in Hjlen. assert (j = length tokens) as -> by lia.
           rewrite lookup_app_r, Nat.sub_diag in Hj by done. simplify_eq/=. lia.
    + exists (length tokens). split.
      { exists t. split; [|done]. by rewrite lookup_app_r, Nat.sub_diag. }
      intros j t' r' Hj Hc'.
      destruct (decide (j < length tokens)) as [Hjl|Hjl].
      * rewrite lookup_app_l in Hj by done.
        rewrite (IH t') in Hc'; [done|]. by eapply list_elem_of_lookup_2.
      * apply lookup_lt_Some in Hj as Hjlen. rewrite length_app in Hjlen.
        simpl in Hjlen. assert (j = length tokens) as -> by lia.
        rewrite lookup_app_r, Nat.sub_diag in Hj by done. simplify_eq/=. lia.
  - destruct (selectKeyword store tokens) as [b|].
    + destruct IH as (i & (t0 & Hi & Hb) & Htop).
      pose proof (lookup_lt_Some _ _ _ Hi) as Hlt.
      exists i. split.
      { exists t0. split; [|done]. by rewrite lookup_app_l. }
      intros j t' r' Hj Hc'.
      destruct (decide (j < length tokens)) as [Hjl|Hjl].
      * rewrite lookup_app_l in Hj by done. by apply (Htop j t' r').
      * apply lookup_lt_Some in Hj as Hjlen. rewrite length_app in Hjlen.
        simpl in Hjlen. assert (j = length tokens) as -> by lia.
        rewrite lookup_app_r, Nat.sub_diag in Hj by done. simplify_eq/=.
    + intros t' [Ht'|Ht']%elem_of_app; [by apply IH|].
      apply list_elem_of_singleton in Ht' as ->. done.
Qed.

Lemma selectKeyword_Some tokens best :
  selectKeyword store tokens = Some best → ∃ i, topAt store tokens best i.
Proof. intros H. pose proof (selectKeyword_scan tokens) as Hs. by rewrite H in Hs. Qed.

Lemma selectKeyword_None tokens :
  selectKeyword store tokens = None → ∀ t, t ∈ tokens → candidate store t = None.
Proof. intros H. pose proof (selectKeyword_scan tokens) as Hs. by rewrite H in Hs. Qed.

(** The rule selected is in the index. *)
Lemma selectKeyword_indexed tokens best :
  selectKeyword store tokens = Some best →
  ∃ kw, index store !! kw = Some best.
Proof.
  intros (i & (t & _ & Hc) & _)%selectKeyword_Some.
  unfold candidate in Hc. eauto.
Qed.

Lemma selectKeyword_rank_le tokens tokens' best :
  tokens ≡ₚ tokens' → selectKeyword store tokens = Some best →
  ∃ best', selectKeyword store tokens' = Some best' ∧ (rank best ≤ rank best')%Z.
Proof.
  intros Hperm (i & (t & Hi & Hc) & _)%selectKeyword_Some.
  assert (Hin : t ∈ tokens').
  { rewrite <-Hperm. by eapply list_elem_of_lookup_2. }
  destruct (selectKeyword store tokens') as [best'|] eqn:Hs'.
  - exists best'. split; [done|].
    apply selectKeyword_Some in Hs' as (i' & _ & Htop).
    apply list_elem_of_lookup_1 in Hin as [j Hj].
    by destruct (Htop j t best Hj Hc).
  - rewrite (selectKeyword_None _ Hs' t Hin) in Hc. done.
Qed.

End SelectorFacts.

Section SelectorClaims.
Import Eliza.

(** C4: once a token stands for a registered keyword a rule is selected;
    the rule selected stands at some position of the input, no candidate in
    the input has a higher rank, wherever it stands, and every candidate of
    the same rank stands at that position or later; and reordering the
    tokens does not change the rank selected. *)
Theorem selectKeyword_highest_rank_then_earliest store tokens :
  (∀ t, t ∈ tokens → is_Some (candidate store t) →
     is_Some (selectKeyword store tokens))
  ∧ (∀ best, selectKeyword store tokens = Some best →
      ∃ i t, tokens !! i = Some t ∧ candidate store t = Some best
        ∧ ∀ j t' r', tokens !! j = Some t' → candidate store t' = Some r' →
            (rank r' ≤ rank best)%Z ∧ (rank r' = rank best → i ≤ j))
  ∧ (∀ tokens', tokens ≡ₚ tokens' →
      rank <$> selectKeyword store tokens' = rank <$> selectKeyword store tokens).
Proof.
  split_and!.
  - intros t Ht [r Hr]. destruct (selectKeyword store tokens) eqn:Hs; [by eexists|].
    rewrite (selectKeyword_None _ _ Hs t Ht) in Hr. done.
  - intros best (i & (t & Hi & Hc) & Htop)%selectKeyword_Some. by exists i, t.
  - intros tokens' Hperm.
    destruct (selectKeyword store tokens) as [best|] eqn:Hs.
    + destruct (selectKeyword_rank_le _ _ _ _ Hperm Hs) as (best' & Hs' & Hle).
      symmetry in Hperm.
      destruct (selectKeyword_rank_le _ _ _ _ Hperm Hs') as (best'' & Hs'' & Hle').
      rewrite Hs' . simplify_eq/=. f_equal. lia.
    + destruct (selectKeyword store tokens') as [best'|] eqn:Hs'; [|done].
      symmetry in Hperm.
      destruct (selectKeyword_rank_le _ _ _ _ Hperm Hs') as (b & Hb & _).
      congruence.
Qed.

(** In "my dream mom" the rule for "dream" (rank 3) is selected over the
    earlier "my" (rank 2) and over the later "mom", a synonym of "mother"
    (rank 3 as well). *)
Lemma selectKeyword_highest_rank_then_earliest_witness :
  ∃ i t, ["my"; "dream"; "mom"] !! i = Some t
    ∧ candidate Sample.store t = Some Sample.dreamRule
    ∧ ∀ j t' r', ["my"; "dream"; "mom"] !! j = Some t' →
        candidate Sample.store t' = Some r' →
        (rank r' ≤ rank Sample.dreamRule)%Z
        ∧ (rank r' = rank Sample.dreamRule → i ≤ j).
Proof.
  apply (selectKeyword_highest_rank_then_earliest Sample.store ["my"; "dream"; "mom"]).
  vm_compute. reflexivity.
Defined.

End SelectorClaims.

(** ** The dialogue engine: matching, filling, rotating *)

Section EngineFacts.
Import Eliza.

Lemma capture_Some {A} (k : list string → option (list A)) wrap tokens n l :
  capture k wrap tokens n = Some l →
  ∃ m caps, m ≤ n ∧ k (drop m tokens) = Some caps ∧ l = wrap (take m tokens) :: caps.
Proof.
  induction n as [|n IH]; simpl.
  - destruct (k (drop 0 tokens)) as [caps|] eqn:Hk; [|done].
    intros [= <-]. exists 0, caps. eauto.
  - destruct (k (drop (S n) tokens)) as [caps|] eqn:Hk.
    + intros [= <-]. exists (S n), caps. eauto.
    + intros (m & caps & Hm & Hk' & ->)%IH. exists m, caps. split; [lia|done].
Qed.

Lemma wildcards_cons_literal w p : wildcards (Literal w :: p) = wildcards p.
Proof. unfold wildcards. by rewrite filter_cons_False. Qed.

Lemma wildcards_cons_wildcard p : wildcards (Wildcard :: p) = S (wildcards p).
Proof. unfold wildcards. by rewrite filter_cons_True. Qed.

(** A match yields one capture per wildcard. *)
Lemma matchPattern_length p tokens caps :
  matchPattern p tokens = Some caps → length caps = wildcards p.
Proof.
  revert tokens caps. induction p as [|[w|] p IH]; intros tokens caps; simpl.
  - destruct tokens; [|done]. by intros [= <-].
  - rewrite wildcards_cons_literal. destruct tokens as [|t ts]; [done|].
    case_decide; [|done]. apply IH.
  - rewrite wildcards_cons_wildcard.
    intros (m & caps' & _ & Hm & ->)%capture_Some. simpl. f_equal. by eapply IH.
Qed.

Lemma firstMatch_Some ps i tokens j p caps :
  firstMatch ps i tokens = Some (j, p, caps) →
  i ≤ j ∧ ps !! (j - i) = Some p ∧ matchPattern (pattern p) tokens = Some caps.
Proof.
  revert i. induction ps as [|q ps IH]; intros i; simpl; [done|].
  destruct (matchPattern (pattern q) tokens) as [caps'|] eqn:Hq.
  - intros [= <- <- <-]. by rewrite Nat.sub_diag.
  - intros (Hle & Hlook & Hm)%IH. split_and!; [lia| |done].
    replace (j - i) with (S (j - S i)) by lia. done.
Qed.

Lemma fill_is_Some (t : ReassemblyTemplate) (captures : list string) :
  (∀ i, Placeholder i ∈ t → i < length captures) → is_Some (fill t captures).
Proof.
  induction t as [|[span|i] t IH]; intros Hfit; simpl; [by eexists|..].
  - destruct IH as [rest ->]; [|by eexists].
    intros i Hi. apply Hfit. by right.
  - destruct (lookup_lt_is_Some_2 captures i) as [c ->]; [apply Hfit; by left|].
    simpl. destruct IH as [rest ->]; [|by eexists].
    intros j Hj. apply Hfit. by right.
Qed.

Lemma rotate_is_Some {A} (l : list A) c : l ≠ [] → is_Some (rotate l c).
Proof.
  intros Hne. apply lookup_lt_is_Some_2, Nat.mod_upper_bound.
  by destruct l.
Qed.

Lemma rotate_None {A} (l : list A) c : rotate l c = None → l = [].
Proof.
  intros Hnone. destruct l as [|x l]; [done|].
  destruct (rotate_is_Some (x :: l) c) as [y Hy]; [done|]. congruence.
Qed.

Lemma matchOf_Some store tokens rule i p caps :
  matchOf store tokens = Some (rule, (i, p, caps)) →
  selectKeyword store tokens = Some rule
  ∧ decompositions rule !! i = Some p
  ∧ matchPattern (pattern p) tokens = Some caps.
Proof.
  unfold matchOf. destruct (selectKeyword store tokens) as [r|]; [|done]. simpl.
  destruct (firstMatch (decompositions r) 0 tokens) as [[[j q] cs]|] eqn:Hf; [|done].
  simpl. intros [= -> -> -> ->].
  apply firstMatch_Some in Hf as (_ & Hlook & Hm). by rewrite Nat.sub_0_r in Hlook.
Qed.

(** No input matches anything before its first token. *)
Lemma normalize_empty opts : normalize opts "" = [].
Proof. done. Qed.

Lemma unmatched_empty store : unmatched store "".
Proof. done. Qed.

Lemma noMatch_total store s :
  fallbacks store ≠ [] → ∃ t s', noMatch store s = Ok (t, s').
Proof.
  intros Hne. unfold noMatch. destruct (memoryQueue s); [|by eauto].
  destruct (rotate_is_Some (fallbacks store) (fallbackCounter s) Hne) as [f ->].
  eauto.
Qed.

Section Loaded.
Context (opts : Options) (script : Script) (store : RuleStore).
Context (Hload : load opts script = Ok store).
Context (Hwf : wellFormed opts script).

(** A hit is on a pattern of a rule of the script, with as many captures as
    the pattern has wildcards. *)
Lemma hits_inv input kw i p caps :
  hits store input kw i p caps →
  ∃ rule, rule ∈ rules script ∧ keyword rule = kw ∧ p ∈ decompositions rule
          ∧ patternOk p ∧ length caps = wildcards (pattern p).
Proof using Hload.
  intros (rule & (Hsel & Hp & Hm)%matchOf_Some & Hkw).
  destruct (load_Ok _ _ _ Hload) as (_ & Hpat & Hidx & _).
  apply selectKeyword_indexed in Hsel as [kw' Hin]. apply Hidx in Hin as [Hr _].
  apply list_elem_of_lookup_2 in Hp.
  exists rule. split_and!; [done..|by eapply Hpat|by eapply matchPattern_length].
Qed.

(** What a turn does on a hit. *)
Lemma turn_hit input kw i p caps s :
  hits store input kw i p caps →
  ∃ template text queue,
    rotate (reassemblies p) (counter s (kw, i)) = Some template
    ∧ fill template (reflect <$> caps) = Some text
    ∧ (if memoryFlag p
       then ∃ mtemplate statement,
              rotate (memoryTemplates opts) (counter s (kw, i)) = Some mtemplate
              ∧ fill mtemplate (reflect <$> caps) = Some statement
              ∧ queue = push (memoryCap opts) statement (memoryQueue s)
       else queue = memoryQueue s)
    ∧ turn store input s
      = Ok (mkTurn text (Reassembled kw i (counter s (kw, i) mod length (reassemblies p))),
            mkSession (<[(kw, i) := S (counter s (kw, i))]> (usageCounters s))
                      queue (fallbackCounter s)).
Proof using Hload Hwf.
  intros Hhit. destruct (hits_inv _ _ _ _ _ Hhit)
    as (rule' & Hr & Hk & Hp & [Hne Hfit] & Hlen).
  destruct Hhit as (rule & Hm & Hkw).
  destruct (load_Ok _ _ _ Hload) as (_ & _ & _ & _ & Hopts).
  destruct (rotate_is_Some (reassemblies p) (counter s (kw, i)) Hne)
    as [template Htemplate].
  destruct (fill_is_Some template (reflect <$> caps)) as [text Htext].
  { intros j Hj. rewrite length_fmap, Hlen. eapply Hfit; [|done].
    by eapply list_elem_of_lookup_2. }
  unfold turn. rewrite Hm, Hkw. cbv zeta.
  destruct (memoryFlag p) eqn:Hflag.
  - destruct Hwf as [_ Hmem]. destruct (Hmem rule' p Hr Hp Hflag) as [Hmne Hmfit].
    destruct (rotate_is_Some (memoryTemplates opts) (counter s (kw, i)) Hmne)
      as [mtemplate Hmtemplate].
    destruct (fill_is_Some mtemplate (reflect <$> caps)) as [statement Hstatement].
    { intros j Hj. rewrite length_fmap, Hlen.
      eapply templateFits_true; [apply Hmfit|done].
      by eapply list_elem_of_lookup_2. }
    exists template, text, (push (memoryCap opts) statement (memoryQueue s)).
    split_and!; [done..|by eauto|].
    unfold memorize. rewrite Hopts, Hmtemplate, Hstatement. simpl.
    unfold reassemble, counter. simpl. fold (counter s (kw, i)).
    by rewrite Htemplate, Htext.
  - exists template, text, (memoryQueue s). split_and!; [done..|].
    simpl. unfold reassemble. rewrite Htemplate, Htext. by destruct s.
Qed.

(** Every turn is answered. *)
Lemma turn_total input s : ∃ t s', turn store input s = Ok (t, s').
Proof using Hload Hwf.
  destruct (matchOf store (normalize (options store) input))
    as [[rule [[i p] caps]]|] eqn:Hm.
  - destruct (turn_hit input (keyword rule) i p caps s) as (? & ? & ? & _ & _ & _ & ->).
    { by exists rule. }
    eauto.
  - unfold turn. rewrite Hm. apply noMatch_total.
    destruct (load_Ok _ _ _ Hload) as (_ & _ & _ & -> & _). apply Hwf.
Qed.

End Loaded.
End EngineFacts.

(** ** The dialogue engine: rotation, memory, and the answer to every turn *)

Section EngineClaims.
Import Eliza.


Lemma counter_insert_ne s key key' c q f :
  key ≠ key' →
  counter (mkSession (<[key := c]> (usageCounters s)) q f) key' = counter s key'.
Proof. intros Hne. unfold counter. simpl. by rewrite lookup_insert_ne. Qed.

(** A use of one pair leaves the counters of the other pairs alone. *)
Lemma reassemble_counter_other kw i p captures s t s' key :
  reassemble kw i p captures s = Ok (t, s') → (kw, i) ≠ key →
  counter s' key = counter s key.
Proof.
  unfold reassemble. destruct (rotate _ _) as [template|]; [|done].
  destruct (fill _ _) as [text|]; [|done]. intros [= <- <-] Hne.
  by apply counter_insert_ne.
Qed.

(** The sample script is well formed, and [Sample.store] is what it loads to. *)
Lemma sample_load : load Sample.opts Sample.script = Ok Sample.store.
Proof. vm_compute. reflexivity. Qed.

Lemma sample_wellFormed : wellFormed Sample.opts Sample.script.
Proof.
  split; [done|]. intros r p Hr Hp Hflag. split; [done|]. intros t Ht.
  repeat (apply elem_of_cons in Hr as [->|Hr]); try (by apply elem_of_nil in Hr);
    repeat (apply elem_of_cons in Hp as [->|Hp]); try (by apply elem_of_nil in Hp);
    try discriminate Hflag;
    repeat (apply elem_of_cons in Ht as [->|Ht]); try (by apply elem_of_nil in Ht);
    reflexivity.
Qed.





(** The memory of the sample conversation, spelled out. *)
Example sample_memory :
  serve Sample.opts Sample.script ["My cat is ill"; "xyzzy"; "xyzzy"]
  = Ok (Ok ["Your cat is ill?"; "Earlier you said your cat is ill."; "Please go on."]).
Proof. vm_compute. reflexivity. Qed.

(** The pronoun inversion the spec gives as its example. *)
Example reflect_my_dog_and_me : reflect ["my"; "dog"; "and"; "me"] = "your dog and you".
Proof. reflexivity. Qed.

(** C2: on rule data that loaded and is well formed, every input and every
    session get a response string: [respond] returns one, and the promise
    of [getResponse] resolves with it; an unmatched input, the empty one
    among them, is answered from memory or, with nothing remembered, with
    the fallback the counter points at. *)
Theorem respond_answers_every_turn opts script store input session :
  load opts script = Ok store → wellFormed opts script →
  ∃ text session',
    respond store input session = Ok (text, session')
    ∧ (∀ (H : Type) (history : H),
         ElizaService_part_005.getResponse (getBotResponse store) input history session
         = (mkTimedPromise 300 (Resolved text), session'))
    ∧ unmatched store ""
    ∧ (unmatched store input →
       match memoryQueue session with
       | oldest :: _ => text = oldest
       | [] => rotate (fallbacks store) (fallbackCounter session) = Some text
       end).
Proof.
  intros Hload Hwf.
  destruct (turn_total opts script store Hload Hwf input session) as (t & s' & Hturn).
  exists (response t), s'.
  assert (Hr : respond store input session = Ok (response t, s')).
  { unfold respond. by rewrite Hturn. }
  split_and!; [done| |done|].
  - intros H history. unfold ElizaService_part_005.getResponse, getBotResponse.
    by rewrite Hr.
  - intros Hun. unfold turn in Hturn. rewrite Hun in Hturn. unfold noMatch in Hturn.
    destruct (memoryQueue session) as [|oldest q]; [|by simplify_eq/=].
    destruct (rotate (fallbacks store) (fallbackCounter session)); by simplify_eq/=.
Qed.

(** "Hello" to the sample script in a fresh session. *)
Lemma respond_answers_every_turn_witness :
  ∃ text session',
    respond Sample.store "Hello" createSession = Ok (text, session')
    ∧ (∀ (H : Type) (history : H),
         ElizaService_part_005.getResponse (getBotResponse Sample.store) "Hello"
           history createSession
         = (mkTimedPromise 300 (Resolved text), session'))
    ∧ unmatched Sample.store ""
    ∧ (unmatched Sample.store "Hello" →
       match memoryQueue createSession with
       | oldest :: _ => text = oldest
       | [] => rotate (fallbacks Sample.store) (fallbackCounter createSession) = Some text
       end).
Proof.
  exact (respond_answers_every_turn Sample.opts Sample.script Sample.store "Hello"
           createSession sample_load sample_wellFormed).
Defined.

End EngineClaims.

(** * Further properties of the sources *)

(** ** Strings: what [trim] returns *)

Section TrimFacts.

Lemma trimEnd_cons_keep c s :
  isWhiteSpace c = false → ∃ r, trimEnd (String c s) = String c r.
Proof.
  intros Hc. simpl. destruct (trimEnd s); rewrite ?Hc; eauto.
Qed.

Lemma trimStart_head s c r : trimStart s = String c r → isWhiteSpace c = false.
Proof.
  induction s as [|c0 s IH]; simpl; [done|].
  destruct (isWhiteSpace c0) eqn:Hc0; [done|]. by intros [= <- <-].
Qed.

Lemma trimStart_stable c s : isWhiteSpace c = false → trimStart (String c s) = String c s.
Proof. intros Hc. simpl. by rewrite Hc. Qed.

Lemma trimEnd_idemp s : trimEnd (trimEnd s) = trimEnd s.
Proof.
  induction s as [|c s IH]; simpl; [done|].
  destruct (trimEnd s) as [|c' r] eqn:Hs.
  - destruct (isWhiteSpace c) eqn:Hc; simpl; [done|]. by rewrite Hc.
  - simpl. simpl in IH. destruct (trimEnd r) as [|c'' r'] eqn:Hr.
    + destruct (isWhiteSpace c') eqn:Hc'; [done|]. by rewrite IH.
    + by rewrite IH.
Qed.

(** The head of a trimmed string is no white space. *)
Lemma trim_head s c r : trim s = String c r → isWhiteSpace c = false.
Proof.
  unfold trim. destruct (trimStart s) as [|c0 s0] eqn:Hs; [done|].
  pose proof (trimStart_head _ _ _ Hs) as Hc0.
  destruct (trimEnd_cons_keep c0 s0 Hc0) as [r0 ->]. by intros [= <- <-].
Qed.

(** Trimming twice is trimming once. *)
Lemma trim_idemp s : trim (trim s) = trim s.
Proof.
  destruct (trim s) as [|c r] eqn:Ht; [done|].
  pose proof (trim_head _ _ _ Ht) as Hc.
  unfold trim at 1. rewrite (trimStart_stable c r Hc), <-Ht.
  unfold trim. apply trimEnd_idemp.
Qed.

Lemma not_blank_trim s : ¬ blank s → trim s ≠ "".
Proof.
  intros Hnb Ht. apply Hnb. right. unfold trim in Ht.
  apply trimEnd_empty in Ht. by rewrite allWhiteSpace_trimStart in Ht.
Qed.

Lemma blank_trim s : blank s ↔ trim s = "".
Proof.
  split.
  - intros [->|H]; [done|]. unfold trim. apply trimEnd_empty.
    by rewrite allWhiteSpace_trimStart.
  - intros Ht. destruct s; [by left|right].
    unfold trim in Ht. apply trimEnd_empty in Ht.
    by rewrite allWhiteSpace_trimStart in Ht.
Qed.

End TrimFacts.

(** ** ChatModel: delete, lookup, notifications, statistics *)

Section ChatModelMore.
Import ChatModel SampleStore.

Lemma filter_length_eq {A} (P : A → Prop) `{!∀ x, Decision (P x)} (l : list A) :
  length (filter P l) = length l ↔ ∀ x, x ∈ l → P x.
Proof.
  split.
  - intros Hlen x Hx. destruct (decide (P x)) as [|Hn]; [done|].
    pose proof (length_filter_lt P l x Hx Hn). lia.
  - intros Hall. induction l as [|x l IH]; [done|].
    rewrite filter_cons_True by (apply Hall; by left). simpl. f_equal.
    apply IH. intros y Hy. apply Hall. by right.
Qed.

Lemma filter_all {A} (P : A → Prop) `{!∀ x, Decision (P x)} (l : list A) :
  (∀ x, x ∈ l → P x) → filter P l = l.
Proof.
  intros Hall. induction l as [|x l IH]; [done|].
  rewrite filter_cons_True by (apply Hall; by left). f_equal.
  apply IH. intros y Hy. apply Hall. by right.
Qed.

Lemma find_app i (l : list Message) m :
  find i (l ++ [m])
  = match find i l with
    | Some hit => Some hit
    | None => if decide (id m = i) then Some (length l, m) else None
    end.
Proof.
  induction l as [|m0 l IH]; simpl.
  - by destruct (decide (id m = i)).
  - destruct (decide (id m0 = i)); [done|]. rewrite IH.
    destruct (find i l) as [[k hit]|]; [done|]. by destruct (decide (id m = i)).
Qed.

Lemma getAll_stored l a o d :
  getAll (_notifyObservers (mkWorld (mkStorage (Stored l) a) o d)) = l.
Proof. done. Qed.

(** A write that is taken leaves the store willing as before. *)
Lemma save_accepts messages w :
  accepts (localStorage (_save messages w).2) = accepts (localStorage w).
Proof. unfold _save. by destruct (accepts (localStorage w) messages). Qed.

Lemma delete_result i w :
  let kept := filter (λ m, id m ≠ i) (getAll w) in
  delete i w
  = if decide (Forall (λ m, id m ≠ i) (getAll w)) then (Return false, w)
    else if accepts (localStorage w) kept
         then (Return true,
               _notifyObservers
                 (mkWorld (mkStorage (Stored kept) (accepts (localStorage w)))
                          (observers w) (delivered w)))
         else (Throw (Error "Failed to save data"), w).
Proof.
  intros kept. subst kept. unfold delete.
  destruct (Nat.eqb_spec (length (filter (λ m, id m ≠ i) (getAll w)))
              (length (getAll w))) as [Heq|Hne].
  - rewrite filter_length_eq in Heq. by rewrite decide_True by (by apply Forall_forall).
  - rewrite decide_False.
    + unfold _save. by destruct (accepts (localStorage w) _).
    + intros Hall. apply Hne, filter_length_eq. by apply Forall_forall.
Qed.

(** [delete] answers [false], and touches nothing, exactly when no stored
    message carries the id. *)
Theorem ChatModel_delete_unknown_id i w :
  delete i w = (Return false, w) ↔ ∀ m, m ∈ getAll w → id m ≠ i.
Proof.
  rewrite delete_result, <-Forall_forall. cbv zeta. case_decide as Hall; [done|].
  split; [|done]. by destruct (accepts _ _).
Qed.

(** When some stored message carries the id and the store takes the write,
    [delete] answers [true] and removes every message with that id, not
    only the first: the others stay, in their order, and looking the id up
    afterwards finds nothing. *)
Theorem ChatModel_delete_removes_every_copy i w m0 :
  m0 ∈ getAll w → id m0 = i →
  accepts (localStorage w) (filter (λ m, id m ≠ i) (getAll w)) = true →
  (delete i w).1 = Return true
  ∧ getAll (delete i w).2 = filter (λ m, id m ≠ i) (getAll w)
  ∧ (∀ m, m ∈ getAll (delete i w).2 ↔ m ∈ getAll w ∧ id m ≠ i)
  ∧ getById i (delete i w).2 = None.
Proof.
  intros Hin Hid Hacc. rewrite delete_result. cbv zeta.
  rewrite decide_False; [|intros Hall; by apply (proj1 (Forall_forall _ _) Hall m0)].
  rewrite Hacc. cbn [fst snd]. rewrite getAll_stored. split_and!; [done..| |].
  - intros m. rewrite list_elem_of_filter. tauto.
  - unfold getById. rewrite getAll_stored.
    replace (find i _) with (@None (nat * Message)); [done|]. symmetry.
    apply find_None. by intros m [Hm _]%list_elem_of_filter.
Qed.

(** Deleting "a" from the two-message store leaves the bot message. *)
Lemma ChatModel_delete_removes_every_copy_witness :
  (delete "a" storeTwo).1 = Return true
  ∧ getAll (delete "a" storeTwo).2 = filter (λ m, id m ≠ "a") (getAll storeTwo)
  ∧ (∀ m, m ∈ getAll (delete "a" storeTwo).2 ↔ m ∈ getAll storeTwo ∧ id m ≠ "a")
  ∧ getById "a" (delete "a" storeTwo).2 = None.
Proof.
  apply (ChatModel_delete_removes_every_copy "a" storeTwo
           (mkMessage "a" "Hello" true 10 false None)).
  - by left.
  - reflexivity.
  - reflexivity.
Defined.

Lemma create_accepted text isUser uuid now w :
  ¬ blank text →
  accepts (localStorage w)
    (getAll w ++ [mkMessage uuid (trim text) isUser now false None]) = true →
  create text isUser uuid now w
  = (Return (mkMessage uuid (trim text) isUser now false None),
     _notifyObservers
       (mkWorld (mkStorage
                   (Stored (getAll w ++ [mkMessage uuid (trim text) isUser now false None]))
                   (accepts (localStorage w)))
                (observers w) (delivered w))).
Proof.
  intros H%emptyText_not_blank Hacc. unfold create. rewrite H. cbv zeta.
  unfold _save. by rewrite Hacc.
Qed.

(** After a [create] that went through, looking up the new id finds the
    message that already had it, if there was one, and the new message
    otherwise; every other id resolves as before. *)
Theorem ChatModel_getById_after_create text isUser uuid now w :
  ¬ blank text →
  accepts (localStorage w)
    (getAll w ++ [mkMessage uuid (trim text) isUser now false None]) = true →
  getById uuid (create text isUser uuid now w).2
  = match getById uuid w with
    | Some older => Some older
    | None => Some (mkMessage uuid (trim text) isUser now false None)
    end
  ∧ ∀ i, i ≠ uuid → getById i (create text isUser uuid now w).2 = getById i w.
Proof.
  intros Hnb Hacc. rewrite create_accepted by done. unfold getById.
  cbn [fst snd]. rewrite getAll_stored. split.
  - rewrite find_app. destruct (find uuid (getAll w)) as [[k hit]|]; [done|].
    simpl. by rewrite decide_True.
  - intros i Hi. rewrite find_app. destruct (find i (getAll w)) as [[k hit]|]; [done|].
    simpl. by rewrite decide_False.
Qed.

(** A new message under a fresh id is found; the older ones still are. *)
Lemma ChatModel_getById_after_create_witness :
  getById "c" (create " Fine " true "c" 12 storeTwo).2
  = match getById "c" storeTwo with
    | Some older => Some older
    | None => Some (mkMessage "c" (trim " Fine ") true 12 false None)
    end
  ∧ ∀ i, i ≠ "c" → getById i (create " Fine " true "c" 12 storeTwo).2 = getById i storeTwo.
Proof.
  apply (ChatModel_getById_after_create " Fine " true "c" 12 storeTwo).
  - intros [H|H]; discriminate H.
  - reflexivity.
Defined.

(** Creating a message under an id nobody has and deleting that id again
    gives back the stored list there was. *)
Theorem ChatModel_delete_undoes_create text isUser uuid now w :
  ¬ blank text → (∀ m, m ∈ getAll w → id m ≠ uuid) →
  accepts (localStorage w)
    (getAll w ++ [mkMessage uuid (trim text) isUser now false None]) = true →
  accepts (localStorage w) (getAll w) = true →
  (delete uuid (create text isUser uuid now w).2).1 = Return true
  ∧ getAll (delete uuid (create text isUser uuid now w).2).2 = getAll w.
Proof.
  intros Hnb Hfresh Hacc Hacc'. rewrite create_accepted by done.
  set (new := mkMessage uuid (trim text) isUser now false None).
  rewrite delete_result. cbv zeta. cbn [fst snd]. rewrite getAll_stored.
  assert (Hkept : filter (λ m, id m ≠ uuid) (getAll w ++ [new]) = getAll w).
  { rewrite filter_app, (filter_all _ _ Hfresh).
    rewrite filter_cons_False, filter_nil by (simpl; tauto). apply app_nil_r. }
  rewrite decide_False.
  - rewrite Hkept. cbn [localStorage _notifyObservers accepts]. rewrite Hacc'.
    cbn [fst snd]. by rewrite getAll_stored.
  - intros Hall. destruct (proj1 (Forall_forall _ _) Hall new); [|done].
    apply elem_of_app. right. by left.
Qed.

Lemma ChatModel_delete_undoes_create_witness :
  (delete "c" (create "Fine" true "c" 12 storeTwo).2).1 = Return true
  ∧ getAll (delete "c" (create "Fine" true "c" 12 storeTwo).2).2 = getAll storeTwo.
Proof.
  apply (ChatModel_delete_undoes_create "Fine" true "c" 12 storeTwo).
  - intros [H|H]; discriminate H.
  - intros m Hm. repeat (apply elem_of_cons in Hm as [->|Hm]); try done.
    by apply elem_of_nil in Hm.
  - reflexivity.
  - reflexivity.
Defined.

End ChatModelMore.

Section ChatModelInvariants.
Import ChatModel SampleStore.

Lemma update_result i newText now w :
  update i newText now w
  = if emptyText newText then (Throw (Error "Message text cannot be empty"), w)
    else match find i (getAll w) with
         | None => (Return None, w)
         | Some (k, m) =>
             if isUser m
             then if accepts (localStorage w) (<[k := edit newText now m]> (getAll w))
                  then (Return (Some (edit newText now m)),
                        _notifyObservers
                          (mkWorld (mkStorage
                                      (Stored (<[k := edit newText now m]> (getAll w)))
                                      (accepts (localStorage w)))
                                   (observers w) (delivered w)))
                  else (Throw (Error "Failed to save data"), w)
             else (Throw (Error "Cannot edit bot messages"), w)
         end.
Proof.
  unfold update. destruct (emptyText newText); [done|]. cbv zeta.
  destruct (find i (getAll w)) as [[k m]|]; [|done].
  destruct (isUser m); simpl; [|done].
  unfold _save. by destruct (accepts _ _).
Qed.

Lemma create_result text isUser uuid now w :
  let new := mkMessage uuid (trim text) isUser now false None in
  create text isUser uuid now w
  = if emptyText text then (Throw (Error "Message text cannot be empty"), w)
    else if accepts (localStorage w) (getAll w ++ [new])
         then (Return new,
               _notifyObservers
                 (mkWorld (mkStorage (Stored (getAll w ++ [new]))
                                     (accepts (localStorage w)))
                          (observers w) (delivered w)))
         else (Throw (Error "Failed to save data"), w).
Proof.
  intros new. subst new. unfold create. destruct (emptyText text); [done|]. cbv zeta.
  unfold _save. by destruct (accepts _ _).
Qed.

Lemma clear_result w :
  clear w
  = if accepts (localStorage w) []
    then (Return true,
          _notifyObservers
            (mkWorld (mkStorage (Stored []) (accepts (localStorage w)))
                     (observers w) (delivered w)))
    else (Throw (Error "Failed to save data"), w).
Proof. unfold clear, _save. by destruct (accepts _ _). Qed.

(** Whatever [update] returns or throws, the stored list afterwards has the
    messages of before in number, order, id, author and creation time. *)
Theorem ChatModel_update_keeps_shape i newText now w :
  length (getAll (update i newText now w).2) = length (getAll w)
  ∧ id <$> getAll (update i newText now w).2 = id <$> getAll w
  ∧ isUser <$> getAll (update i newText now w).2 = isUser <$> getAll w
  ∧ timestamp <$> getAll (update i newText now w).2 = timestamp <$> getAll w.
Proof.
  rewrite update_result. destruct (emptyText newText); [done|].
  destruct (find i (getAll w)) as [[k m]|] eqn:Hf; [|done].
  destruct (isUser m); [|done]. destruct (accepts _ _); [|done].
  cbn [fst snd]. rewrite getAll_stored.
  apply find_Some in Hf as (Hk & _ & _).
  rewrite length_insert, !list_fmap_insert. split_and!; [done|..];
    apply list_insert_id; by rewrite list_lookup_fmap, Hk.
Qed.

(** A mutator that throws has changed nothing: the store, the observers and
    what was delivered to them are as before. *)
Theorem ChatModel_throw_changes_nothing w e :
  (∀ text isUser uuid now,
     (create text isUser uuid now w).1 = Throw e → (create text isUser uuid now w).2 = w)
  ∧ (∀ i newText now,
       (update i newText now w).1 = Throw e → (update i newText now w).2 = w)
  ∧ (∀ i, (delete i w).1 = Throw e → (delete i w).2 = w)
  ∧ ((clear w).1 = Throw e → (clear w).2 = w).
Proof.
  split_and!.
  - intros text isUser uuid now. rewrite create_result. cbv zeta.
    destruct (emptyText text); [done|]. by destruct (accepts _ _).
  - intros i newText now. rewrite update_result.
    destruct (emptyText newText); [done|].
    destruct (find i (getAll w)) as [[k m]|]; [|done].
    destruct (isUser m); [|done]. by destruct (accepts _ _).
  - intros i. rewrite delete_result. cbv zeta. case_decide; [done|].
    by destruct (accepts _ _).
  - rewrite clear_result. by destruct (accepts _ _).
Qed.

(** On the full store, the refused [create] leaves the world as it was. *)
Lemma ChatModel_throw_changes_nothing_witness :
  (create "Hi" true "c" 12 storeFull).2 = storeFull.
Proof.
  apply (ChatModel_throw_changes_nothing storeFull (Error "Failed to save data")).
  reflexivity.
Defined.

(** A mutator that changes the store delivers the stored list as it is
    after the change to every observer, once; the observers stay. *)
Theorem ChatModel_change_notifies_each_observer_once w :
  (∀ text isUser uuid now m,
     (create text isUser uuid now w).1 = Return m →
     notified w (create text isUser uuid now w).2)
  ∧ (∀ i newText now m,
       (update i newText now w).1 = Return (Some m) →
       notified w (update i newText now w).2)
  ∧ (∀ i, (delete i w).1 = Return true → notified w (delete i w).2)
  ∧ ((clear w).1 = Return true → notified w (clear w).2).
Proof.
  split_and!.
  - intros text isUser uuid now m. rewrite create_result. cbv zeta.
    destruct (emptyText text); [done|]. by destruct (accepts _ _).
  - intros i newText now m. rewrite update_result.
    destruct (emptyText newText); [done|].
    destruct (find i (getAll w)) as [[k m']|]; [|done].
    destruct (isUser m'); [|done]. by destruct (accepts _ _).
  - intros i. rewrite delete_result. cbv zeta. case_decide; [done|].
    by destruct (accepts _ _).
  - rewrite clear_result. by destruct (accepts _ _).
Qed.

(** The one observer of the two-message store is handed the three messages
    there are after a [create]. *)
Lemma ChatModel_change_notifies_each_observer_once_witness :
  notified storeTwo (create "Fine" true "c" 12 storeTwo).2.
Proof.
  apply (proj1 (ChatModel_change_notifies_each_observer_once storeTwo)
           "Fine" true "c" 12%N (mkMessage "c" "Fine" true 12 false None)).
  reflexivity.
Defined.

Lemma tidy_new uuid text isUser now :
  emptyText text = false → tidy (mkMessage uuid (trim text) isUser now false None).
Proof.
  intros H%emptyText_not_blank. split; simpl; [by apply not_blank_trim|apply trim_idemp].
Qed.

Lemma tidy_edit newText now m : emptyText newText = false → tidy (edit newText now m).
Proof.
  intros H%emptyText_not_blank. split; simpl; [by apply not_blank_trim|apply trim_idemp].
Qed.

Lemma perform_tidy c w : Forall tidy (getAll w) → Forall tidy (getAll (perform c w)).
Proof.
  intros Hw. destruct c as [text isUser uuid now|i newText now|i|]; simpl.
  - rewrite create_result. cbv zeta. destruct (emptyText text) eqn:He; [done|].
    destruct (accepts _ _); [|done]. cbn [snd]. rewrite getAll_stored.
    apply Forall_app. split; [done|]. constructor; [by apply tidy_new|constructor].
  - rewrite update_result. destruct (emptyText newText) eqn:He; [done|].
    destruct (find i (getAll w)) as [[k m]|]; [|done].
    destruct (isUser m); [|done]. destruct (accepts _ _); [|done].
    cbn [snd]. rewrite getAll_stored. apply Forall_insert; [done|by apply tidy_edit].
  - rewrite delete_result. cbv zeta. case_decide; [done|].
    destruct (accepts _ _); [|done]. cbn [snd]. rewrite getAll_stored.
    apply Forall_forall. intros m [_ Hm]%list_elem_of_filter.
    by apply (proj1 (Forall_forall _ _) Hw).
  - rewrite clear_result. destruct (accepts _ _); [|done]. cbn [snd].
    rewrite getAll_stored. constructor.
Qed.

(** Through any session of [create], [update], [delete] and [clear] calls,
    whatever they return or throw, the text of every stored message stays
    non-empty and free of white space at its ends, if it was so at the
    start (as in a store that is empty or unreadable). *)
Theorem ChatModel_stored_text_stays_tidy calls w :
  Forall tidy (getAll w) → Forall tidy (getAll (performAll calls w)).
Proof.
  revert w. induction calls as [|c calls IH]; intros w Hw; [done|].
  simpl. apply IH. by apply perform_tidy.
Qed.

Lemma ChatModel_stored_text_stays_tidy_witness :
  Forall tidy
    (getAll (performAll [CallCreate "  Hi  " true "c" 12; CallUpdate "c" " Ho " 13;
                         CallDelete "zz"; CallCreate " " false "d" 14]
                        storeEmpty)).
Proof.
  apply (ChatModel_stored_text_stays_tidy _ storeEmpty). constructor.
Defined.

(** The counts of [getStats]: every message is a user message or a bot
    message, the edited ones are among them, and there is a last message
    time exactly when there is a message. *)
Theorem ChatModel_getStats_counts w :
  total (getStats w) = length (getAll w)
  ∧ total (getStats w) = userMessages (getStats w) + botMessages (getStats w)
  ∧ editedMessages (getStats w) ≤ total (getStats w)
  ∧ (lastMessageTime (getStats w) = None ↔ total (getStats w) = 0).
Proof.
  unfold getStats. simpl. split_and!; [done| |apply length_filter|].
  - induction (getAll w) as [|m l IH]; [done|].
    rewrite !filter_cons. destruct (isUser m) eqn:Hu.
    + rewrite decide_True, decide_False by done. simpl. lia.
    + rewrite decide_False, decide_True by done. simpl. lia.
  - rewrite fmap_None, last_None. by destruct (getAll w).
Qed.

(** After a [create] that went through, the statistics count one message
    more, on the side of its author, and the last message time is the time
    of the call. *)
Theorem ChatModel_getStats_after_create text isUser uuid now w :
  ¬ blank text →
  accepts (localStorage w)
    (getAll w ++ [mkMessage uuid (trim text) isUser now false None]) = true →
  let before := getStats w in
  let after := getStats (create text isUser uuid now w).2 in
  total after = S (total before)
  ∧ userMessages after = userMessages before + (if isUser then 1 else 0)
  ∧ botMessages after = botMessages before + (if isUser then 0 else 1)
  ∧ editedMessages after = editedMessages before
  ∧ lastMessageTime after = Some now.
Proof.
  intros Hnb Hacc. rewrite create_accepted by done. unfold getStats.
  cbn [snd]. rewrite getAll_stored. cbv zeta. cbn [total userMessages botMessages
    editedMessages lastMessageTime].
  rewrite !filter_app, !length_app, last_snoc. split_and!.
  - simpl. lia.
  - rewrite filter_cons, filter_nil. by destruct isUser.
  - rewrite filter_cons, filter_nil. by destruct isUser.
  - rewrite filter_cons_False, filter_nil by done. simpl. lia.
  - done.
Qed.

Lemma ChatModel_getStats_after_create_witness :
  let before := getStats storeTwo in
  let after := getStats (create "Fine" false "c" 12 storeTwo).2 in
  total after = S (total before)
  ∧ userMessages after = userMessages before + 0
  ∧ botMessages after = botMessages before + 1
  ∧ editedMessages after = editedMessages before
  ∧ lastMessageTime after = Some 12%N.
Proof.
  apply (ChatModel_getStats_after_create "Fine" false "c" 12 storeTwo).
  - intros [H|H]; discriminate H.
  - reflexivity.
Defined.

End ChatModelInvariants.

(** ** OpenAIService: payload, retries, outcomes *)

Section OpenAIServiceFacts.
Import ChatModel OpenAIService.

Lemma foldl_snoc_map {A B} (f : A → B) (l : list A) (acc : list B) :
  foldl (λ acc x, acc ++ [f x]) acc l = acc ++ (f <$> l).
Proof.
  revert acc. induction l as [|x l IH]; intros acc; simpl.
  - by rewrite app_nil_r.
  - rewrite IH, <-app_assoc. done.
Qed.

Lemma slice_last_length {A} n (l : list A) :
  length (GeminiService.slice_last n l) = min n (length l).
Proof. unfold GeminiService.slice_last. rewrite length_drop. lia. Qed.

(** The payload of a request: the system prompt first, the user's message
    last, and between them the last ten messages of the history at most, in
    their order, user messages as "user" and bot messages as "assistant";
    never more than twelve entries. *)
Theorem OpenAIService_buildMessages_shape message history :
  _buildMessages message history
  = systemMessage
    :: ((λ msg, mkChatMessage (if isUser msg then "user" else "assistant") (text msg))
          <$> GeminiService.slice_last 10 history)
    ++ [mkChatMessage "user" message]
  ∧ length (_buildMessages message history) = 2 + min 10 (length history)
  ∧ length (_buildMessages message history) ≤ 12
  ∧ GeminiService.slice_last 10 history `suffix_of` history.
Proof.
  assert (Heq : _buildMessages message history
    = systemMessage
      :: ((λ msg, mkChatMessage (if isUser msg then "user" else "assistant") (text msg))
            <$> GeminiService.slice_last 10 history)
      ++ [mkChatMessage "user" message]).
  { unfold _buildMessages. cbv zeta.
    by rewrite (foldl_snoc_map
      (λ msg, mkChatMessage (if isUser msg then "user" else "assistant") (text msg))). }
  split_and!; [done|..].
  - rewrite Heq, length_cons, length_app, length_fmap, slice_last_length.
    cbn [length]. lia.
  - rewrite Heq, length_cons, length_app, length_fmap, slice_last_length.
    cbn [length]. lia.
  - apply suffix_drop.
Qed.

Lemma backoff_closed r k : 2 * backoff r k = 1000 * k * (2 * r + k + 1).
Proof. revert r. induction k as [|k IH]; intros r; simpl; [lia|]. specialize (IH (r + 1)). nia. Qed.

Lemma backoff_0 k : backoff 0 k = 500 * k * (k + 1).
Proof. pose proof (backoff_closed 0 k). nia. Qed.

Lemma attempt_Pending f : attempt f = Pending ↔ f = Unsettled.
Proof.
  split; [|by intros ->]. destruct f as [e|status errorData|[response|e]|]; simpl; try done.
  repeat case_match; done.
Qed.

(** With fuel for the retries that are left, the call is left pending only
    by a fetch that never settles, the last one it makes; it makes at most
    one fetch per retry left and one more. *)
Lemma makeRequestFuel_bounded self net fuel r :
  maxRetries self - r ≤ fuel →
  (settled (_makeRequestFuel fuel self net r) = Pending
   ↔ net (r + (fetches (_makeRequestFuel fuel self net r) - 1)) = Unsettled)
  ∧ 1 ≤ fetches (_makeRequestFuel fuel self net r)
  ∧ fetches (_makeRequestFuel fuel self net r) ≤ S (maxRetries self - r)
  ∧ waited (_makeRequestFuel fuel self net r)
    = backoff r (fetches (_makeRequestFuel fuel self net r) - 1).
Proof.
  assert (Hone : ∀ r s, attempt (net r) = s →
            (s = Pending ↔ net (r + (1 - 1)) = Unsettled)).
  { intros r0 s <-. rewrite Nat.sub_diag, Nat.add_0_r. apply attempt_Pending. }
  revert r. induction fuel as [|fuel IH]; intros r Hfuel; simpl.
  - destruct (attempt (net r)) as [response|error|] eqn:Ha; simpl;
      [split_and!; [by apply Hone|lia..|done]| |split_and!; [by apply Hone|lia..|done]].
    destruct (Nat.ltb_spec r (maxRetries self)) as [Hlt|Hge]; [lia|].
    simpl. split_and!; [by apply Hone|lia..|done].
  - destruct (attempt (net r)) as [response|error|] eqn:Ha; simpl;
      [split_and!; [by apply Hone|lia..|done]| |split_and!; [by apply Hone|lia..|done]].
    destruct (Nat.ltb_spec r (maxRetries self)) as [Hlt|Hge]; simpl;
      [|split_and!; [by apply Hone|lia..|done]].
    destruct (includes "fetch" (errMessage error)); simpl;
      [|split_and!; [by apply Hone|lia..|done]].
    destruct (IH (r + 1)) as (Hs & Hf1 & Hf2 & Hw); [lia|].
    split_and!; [|lia|lia|].
    + rewrite Hs, Nat.sub_0_r.
      by replace (r + 1 + (fetches (_makeRequestFuel fuel self net (r + 1)) - 1))
        with (r + fetches (_makeRequestFuel fuel self net (r + 1))) by lia.
    + rewrite Hw, Nat.sub_0_r.
      destruct (fetches (_makeRequestFuel fuel self net (r + 1))) as [|f]; [lia|].
      simpl. rewrite Nat.sub_0_r. done.
Qed.

(** A call of [_makeRequest] is left pending exactly when the last fetch it
    makes never settles, so it settles when every fetch does; [fetch] is
    called at least once and at most once more than there are retries left;
    and the time spent in back-off is fixed by the number of fetches: 1000 ms
    before the first retry, 2000 ms before the second, and so on. *)
Theorem OpenAIService_makeRequest_bounded self net retryCount :
  (settled (_makeRequest self net retryCount) = Pending
   ↔ net (retryCount + (fetches (_makeRequest self net retryCount) - 1)) = Unsettled)
  ∧ ((∀ k, net k ≠ Unsettled) → settled (_makeRequest self net retryCount) ≠ Pending)
  ∧ 1 ≤ fetches (_makeRequest self net retryCount)
  ∧ fetches (_makeRequest self net retryCount) ≤ S (maxRetries self - retryCount)
  ∧ waited (_makeRequest self net retryCount)
    = backoff retryCount (fetches (_makeRequest self net retryCount) - 1)
  ∧ (retryCount = 0 → maxRetries self = 2 →
     fetches (_makeRequest self net retryCount) ≤ 3
     ∧ waited (_makeRequest self net retryCount) ≤ 3000).
Proof.
  destruct (makeRequestFuel_bounded self net (maxRetries self - retryCount) retryCount)
    as (Hs & Hf1 & Hf2 & Hw); [done|].
  fold (_makeRequest self net retryCount) in *.
  split_and!; [done| |done..|].
  - intros Hnet Hp. by apply Hs, Hnet in Hp.
  - intros -> Hm. rewrite Hm in Hf2. split; [lia|].
    rewrite Hw, backoff_0.
    destruct (fetches (_makeRequest self net 0)) as [|[|[|f]]]; simpl; lia.
Qed.

(** A lost connection and then a fetch that never settles: the call is left
    pending after two fetches; with an answer in its place, it settles. *)
Lemma OpenAIService_makeRequest_bounded_witness :
  settled (_makeRequest (constructor (Some "sk-test") "gpt-3.5-turbo")
             (λ k, if k =? 0 then NetworkError (TypeError "Failed to fetch")
                   else Unsettled) 0) = Pending
  ∧ settled (_makeRequest (constructor (Some "sk-test") "gpt-3.5-turbo")
               (λ k, if k =? 0 then NetworkError (TypeError "Failed to fetch")
                     else Okay (Return (mkResponse None))) 0) ≠ Pending.
Proof.
  split.
  - apply (proj1 (OpenAIService_makeRequest_bounded
                    (constructor (Some "sk-test") "gpt-3.5-turbo")
                    (λ k, if k =? 0 then NetworkError (TypeError "Failed to fetch")
                          else Unsettled) 0)).
    reflexivity.
  - apply (proj1 (proj2 (OpenAIService_makeRequest_bounded
                    (constructor (Some "sk-test") "gpt-3.5-turbo")
                    (λ k, if k =? 0 then NetworkError (TypeError "Failed to fetch")
                          else Okay (Return (mkResponse None))) 0))).
    intros k. by destruct (k =? 0).
Defined.

(** The run ends at the first attempt [k] that is the last one allowed or
    does not throw an error with "fetch" in its message. *)
Lemma makeRequestFuel_stops_at self net fuel r k :
  r + k ≤ maxRetries self → k ≤ fuel →
  (∀ j, j < k → ∃ e, attempt (net (r + j)) = Rejected e
                     ∧ includes "fetch" (errMessage e) = true) →
  (r + k = maxRetries self
   ∨ ∀ e, attempt (net (r + k)) = Rejected e → includes "fetch" (errMessage e) = false) →
  _makeRequestFuel fuel self net r = mkRun (attempt (net (r + k))) (S k) (backoff r k).
Proof.
  revert r fuel. induction k as [|k IH]; intros r fuel Hmax Hfuel Hretry Hstop.
  - rewrite Nat.add_0_r in *. destruct fuel; simpl;
      (destruct (attempt (net r)) as [response|error|]; [done| |done]);
      (destruct Hstop as [->|Hstop];
        [by rewrite Nat.ltb_irrefl|by rewrite (Hstop error), andb_false_r]).
  - destruct fuel as [|fuel]; [lia|]. simpl.
    destruct (Hretry 0) as (e & He & Hfetch); [lia|].
    rewrite Nat.add_0_r in He. rewrite He, Hfetch.
    destruct (Nat.ltb_spec r (maxRetries self)) as [Hlt|Hge]; [|lia]. simpl.
    rewrite (IH (r + 1) fuel).
    + simpl. by replace (r + 1 + k) with (r + S k) by lia.
    + lia.
    + lia.
    + intros j Hj. destruct (Hretry (S j)) as (e' & He' & Hf'); [lia|].
      exists e'. by replace (r + 1 + j) with (r + S j) by lia.
    + by replace (r + 1 + k) with (r + S k) by lia.
Qed.

(** While the attempts throw errors with "fetch" in their message, the
    request is tried again, up to [maxRetries] times; it ends with the first
    attempt [k] that returns, or throws another message, or never settles,
    or is the last one allowed, after [k + 1] fetches and
    [500 * k * (k + 1)] ms of back-off, and settles as that attempt did. *)
Theorem OpenAIService_makeRequest_stops_at self net k :
  k ≤ maxRetries self →
  (∀ j, j < k → ∃ e, attempt (net j) = Rejected e
                     ∧ includes "fetch" (errMessage e) = true) →
  (k = maxRetries self
   ∨ ∀ e, attempt (net k) = Rejected e → includes "fetch" (errMessage e) = false) →
  _makeRequest self net 0 = mkRun (attempt (net k)) (S k) (500 * k * (k + 1)).
Proof.
  intros Hk Hretry Hstop. unfold _makeRequest.
  rewrite (makeRequestFuel_stops_at self net _ 0 k); simpl; [|lia..|done|done].
  by rewrite backoff_0.
Qed.

(** One lost connection, then an answer: two fetches, one second of
    back-off. *)
Lemma OpenAIService_makeRequest_stops_at_witness :
  _makeRequest (constructor (Some "sk-test") "gpt-3.5-turbo")
    (λ k, if k =? 0 then NetworkError (TypeError "Failed to fetch")
          else Okay (Return (mkResponse (Some [mkChoice "stop" (Some " Hi ")])))) 0
  = mkRun (Resolved (mkResponse (Some [mkChoice "stop" (Some " Hi ")]))) 2 1000.
Proof.
  apply (OpenAIService_makeRequest_stops_at
           (constructor (Some "sk-test") "gpt-3.5-turbo")
           (λ k, if k =? 0 then NetworkError (TypeError "Failed to fetch")
                 else Okay (Return (mkResponse (Some [mkChoice "stop" (Some " Hi ")])))) 1).
  - simpl. lia.
  - intros j Hj. assert (j = 0) as -> by lia.
    exists (TypeError "Failed to fetch"). split; reflexivity.
  - right. intros e He. discriminate He.
Defined.

(** The errors [_makeRequest] makes of the statuses it knows carry no
    "fetch" in their message: a response with status 401, 429, 400, 500 or
    503 is never retried, whatever the retry count; the call rejects at once
    with the message for that status. *)
Theorem OpenAIService_known_status_not_retried self net retryCount status errorData :
  net retryCount = NotOk status errorData →
  status ∈ [401; 429; 400; 500; 503] →
  ∃ e, _makeRequest self net retryCount = mkRun (Rejected e) 1 0
       ∧ attempt (NotOk status errorData) = Rejected e
       ∧ errName e = "Error"
       ∧ includes "fetch" (errMessage e) = false
       ∧ includes "API error" (errMessage e) = false.
Proof.
  intros Hnet Hstatus. unfold _makeRequest.
  assert (Hone : ∀ fuel e, attempt (net retryCount) = Rejected e →
            includes "fetch" (errMessage e) = false →
            _makeRequestFuel fuel self net retryCount = mkRun (Rejected e) 1 0).
  { intros fuel e He Hf. destruct fuel; simpl; by rewrite He, Hf, andb_false_r. }
  repeat (apply elem_of_cons in Hstatus as [->|Hstatus]);
    try (by apply elem_of_nil in Hstatus);
    (eexists; split;
      [apply Hone; [rewrite Hnet; reflexivity|reflexivity]
      |split_and!; reflexivity]).
Qed.

Lemma OpenAIService_known_status_not_retried_witness :
  ∃ e, _makeRequest (constructor (Some "sk-test") "gpt-3.5-turbo")
         (λ _, NotOk 429 (ErrorObject (Some "fetch quota"))) 0
       = mkRun (Rejected e) 1 0
       ∧ attempt (NotOk 429 (ErrorObject (Some "fetch quota"))) = Rejected e
       ∧ errName e = "Error"
       ∧ includes "fetch" (errMessage e) = false
       ∧ includes "API error" (errMessage e) = false.
Proof.
  apply (OpenAIService_known_status_not_retried
           (constructor (Some "sk-test") "gpt-3.5-turbo")
           (λ _, NotOk 429 (ErrorObject (Some "fetch quota"))) 0 429
           (ErrorObject (Some "fetch quota"))).
  - reflexivity.
  - right. left.
Defined.

End OpenAIServiceFacts.

Section AdapterOutcomes.
Import ChatModel.

Lemma startsWith_app s t : startsWith s (s +:+ t) = true.
Proof.
  unfold startsWith. induction s as [|c s IH]; [by destruct t|].
  change (String c s +:+ t) with (String c (s +:+ t)). simpl.
  by destruct (ascii_dec c c).
Qed.

Lemma startsWith_head a s b t : startsWith (String a s) (String b t) = true → a = b.
Proof. unfold startsWith. simpl. by destruct (ascii_dec a b). Qed.

(** What [GeminiService._extractText] hands back is trimmed; what it throws
    is always the same parse error; it reads the first candidate only; and
    text that is white space only comes back as the empty string, not as an
    error. *)
Theorem GeminiService_extractText_result response :
  (∀ e, GeminiService._extractText response = Throw e →
        e = Error "Failed to parse AI response")
  ∧ (∀ text, GeminiService._extractText response = Return text → trim text = text)
  ∧ (∀ candidate rest rest',
       GeminiService._extractText (GeminiService.mkResponse (Some (candidate :: rest)))
       = GeminiService._extractText (GeminiService.mkResponse (Some (candidate :: rest'))))
  ∧ (∀ reason text rest, reason ≠ "SAFETY" → text ≠ "" → blank text →
       GeminiService._extractText
         (GeminiService.mkResponse
            (Some (GeminiService.mkCandidate reason (Some text) :: rest)))
       = Return "").
Proof.
  unfold GeminiService._extractText. split_and!.
  - intros e. destruct (GeminiService.candidates response) as [[|c cs]|]; simpl;
      try (by intros [= <-]).
    case_decide; [done|]. destruct (GeminiService.partText c) as [text|];
      [|by intros [= <-]].
    destruct (falsy text); [by intros [= <-]|done].
  - intros text. destruct (GeminiService.candidates response) as [[|c cs]|]; simpl;
      try done.
    case_decide; [by intros [= <-]|].
    destruct (GeminiService.partText c) as [text'|]; [|done].
    destruct (falsy text'); [done|]. intros [= <-]. apply trim_idemp.
  - done.
  - intros reason text rest Hr Ht Hb. simpl. rewrite decide_False by done.
    destruct text; [done|]. simpl falsy. cbv iota.
    apply blank_trim in Hb. by rewrite Hb.
Qed.

(** The same for [OpenAIService._extractText], with the first choice and the
    content filter. *)
Theorem OpenAIService_extractText_result response :
  (∀ e, OpenAIService._extractText response = Throw e →
        e = Error "Failed to parse AI response")
  ∧ (∀ text, OpenAIService._extractText response = Return text → trim text = text)
  ∧ (∀ choice rest rest',
       OpenAIService._extractText (OpenAIService.mkResponse (Some (choice :: rest)))
       = OpenAIService._extractText (OpenAIService.mkResponse (Some (choice :: rest'))))
  ∧ (∀ reason text rest, reason ≠ "content_filter" → text ≠ "" → blank text →
       OpenAIService._extractText
         (OpenAIService.mkResponse
            (Some (OpenAIService.mkChoice reason (Some text) :: rest)))
       = Return "").
Proof.
  unfold OpenAIService._extractText. split_and!.
  - intros e. destruct (OpenAIService.choices response) as [[|c cs]|]; simpl;
      try (by intros [= <-]).
    case_decide; [done|]. destruct (OpenAIService.messageContent c) as [text|];
      [|by intros [= <-]].
    destruct (falsy text); [by intros [= <-]|done].
  - intros text. destruct (OpenAIService.choices response) as [[|c cs]|]; simpl;
      try done.
    case_decide; [by intros [= <-]|].
    destruct (OpenAIService.messageContent c) as [text'|]; [|done].
    destruct (falsy text'); [done|]. intros [= <-]. apply trim_idemp.
  - done.
  - intros reason text rest Hr Ht Hb. simpl. rewrite decide_False by done.
    destruct text; [done|]. simpl falsy. cbv iota.
    apply blank_trim in Hb. by rewrite Hb.
Qed.

Lemma openai_extractText_trimmed response text :
  OpenAIService._extractText response = Return text → trim text = text.
Proof.
  unfold OpenAIService._extractText.
  destruct (OpenAIService.choices response) as [[|c cs]|]; simpl; try done.
  case_decide; [by intros [= <-]|].
  destruct (OpenAIService.messageContent c) as [text'|]; [|done].
  destruct (falsy text'); [done|]. intros [= <-]. apply trim_idemp.
Qed.

(** How a call of [OpenAIService.getResponse] can end.  Without a key it
    rejects before any fetch.  Otherwise it makes at most [maxRetries + 1]
    fetches, and its promise is left pending exactly when the last of them
    never settles, so it settles when every fetch does; a rejection is an
    [Error] whose message begins "ChatGPT failed: "; what it resolves with
    is trimmed. *)
Theorem OpenAIService_getResponse_outcomes self net message history :
  let a := OpenAIService.getResponse self net message history in
  let req := OpenAIService.request self (OpenAIService._buildMessages message history) in
  (OpenAIService.noApiKey self = true →
     a = OpenAIService.mkAnswer (Rejected (Error "OpenAI API key is required")) 0 0)
  ∧ (OpenAIService.answer a = Pending
     ↔ OpenAIService.noApiKey self = false
       ∧ net req (OpenAIService.calls a - 1) = OpenAIService.Unsettled)
  ∧ ((∀ k, net req k ≠ OpenAIService.Unsettled) → OpenAIService.answer a ≠ Pending)
  ∧ OpenAIService.calls a ≤ S (OpenAIService.maxRetries self)
  ∧ (∀ e, OpenAIService.answer a = Rejected e →
       errName e = "Error"
       ∧ (errMessage e = "OpenAI API key is required"
          ∨ startsWith "ChatGPT failed: " (errMessage e) = true))
  ∧ (∀ text, OpenAIService.answer a = Resolved text → trim text = text).
Proof.
  intros a req. subst a. unfold OpenAIService.getResponse.
  destruct (OpenAIService.noApiKey self) eqn:Hkey.
  { split_and!; [done|by split; [|intros [? _]]|done|simpl; lia| |done].
    intros e [= <-]. split; [done|by left]. }
  cbv zeta. fold req.
  set (run := OpenAIService._makeRequest self (net req) 0).
  destruct (makeRequestFuel_bounded self (net req)
              (OpenAIService.maxRetries self - 0) 0) as (Hs & _ & Hf & _); [done|].
  fold (OpenAIService._makeRequest self (net req) 0) in Hs, Hf.
  fold run in Hs, Hf. rewrite Nat.sub_0_r in Hf. rewrite Nat.add_0_l in Hs.
  cbn [OpenAIService.answer OpenAIService.calls].
  assert (Hp : match OpenAIService.settled run with
               | Resolved response =>
                   match OpenAIService._extractText response with
                   | Return text => Resolved text
                   | Throw e => Rejected (Error ("ChatGPT failed: " +:+ errMessage e))
                   end
               | Rejected e => Rejected (Error ("ChatGPT failed: " +:+ errMessage e))
               | Pending => Pending
               end = Pending
               ↔ OpenAIService.settled run = Pending).
  { destruct (OpenAIService.settled run) as [response|e|]; [|done..].
    by destruct (OpenAIService._extractText response). }
  split_and!; [done| | |done| |].
  - rewrite Hp, Hs. by split; [|intros [_ ?]].
  - intros Hnet H. apply Hp, Hs in H. by apply Hnet in H.
  - intros e. destruct (OpenAIService.settled run) as [response|e'|]; [| |done].
    + destruct (OpenAIService._extractText response); [done|].
      intros [= <-]. split; [done|]. right. apply startsWith_app.
    + intros [= <-]. split; [done|]. right. apply startsWith_app.
  - intros text. destruct (OpenAIService.settled run) as [response|e'|]; [|done..].
    destruct (OpenAIService._extractText response) as [t|e] eqn:He; [|done].
    intros [= <-]. by apply (openai_extractText_trimmed response).
Qed.

(** With a key and a network whose second fetch never settles after a lost
    connection, the promise of [getResponse] is left pending; when the second
    fetch answers, it is not. *)
Lemma OpenAIService_getResponse_outcomes_witness :
  OpenAIService.answer
    (OpenAIService.getResponse (OpenAIService.constructor (Some "sk-test") "gpt-3.5-turbo")
       (λ _ k, if k =? 0 then OpenAIService.NetworkError (TypeError "Failed to fetch")
               else OpenAIService.Unsettled)
       "Hi" []) = Pending
  ∧ OpenAIService.answer
      (OpenAIService.getResponse (OpenAIService.constructor (Some "sk-test") "gpt-3.5-turbo")
         (λ _ k, if k =? 0 then OpenAIService.NetworkError (TypeError "Failed to fetch")
                 else OpenAIService.Okay
                        (Return (OpenAIService.mkResponse
                                   (Some [OpenAIService.mkChoice "stop" (Some " Hi ")]))))
         "Hi" []) ≠ Pending.
Proof.
  split.
  - apply (proj1 (proj2 (OpenAIService_getResponse_outcomes
             (OpenAIService.constructor (Some "sk-test") "gpt-3.5-turbo")
             (λ _ k, if k =? 0 then OpenAIService.NetworkError (TypeError "Failed to fetch")
                     else OpenAIService.Unsettled)
             "Hi" []))).
    split; reflexivity.
  - apply (proj1 (proj2 (proj2 (OpenAIService_getResponse_outcomes
             (OpenAIService.constructor (Some "sk-test") "gpt-3.5-turbo")
             (λ _ k, if k =? 0 then OpenAIService.NetworkError (TypeError "Failed to fetch")
                     else OpenAIService.Okay
                            (Return (OpenAIService.mkResponse
                                       (Some [OpenAIService.mkChoice "stop" (Some " Hi ")]))))
             "Hi" [])))).
    intros k. by destruct (k =? 0).
Defined.

(** The two key formats.  A key [isValidApiKey] accepts is a string that is
    long enough and has the provider's prefix; it passes the key guard of
    [getResponse]; and no key is accepted for both providers. *)
Theorem api_key_formats key :
  (GeminiService.isValidApiKey key = true →
     ∃ k, key = Some k ∧ 20 < String.length k ∧ startsWith "AIzaSy" k = true
          ∧ GeminiService.noApiKey (GeminiService.constructor key) = false
          ∧ OpenAIService.isValidApiKey key = false)
  ∧ (OpenAIService.isValidApiKey key = true →
     ∃ k, key = Some k ∧ 40 < String.length k ∧ startsWith "sk-" k = true
          ∧ (∀ model, OpenAIService.noApiKey (OpenAIService.constructor key model) = false)
          ∧ GeminiService.isValidApiKey key = false).
Proof.
  destruct key as [k|]; [|done]. simpl. split.
  - intros [[Hf Hlen%Nat.ltb_lt]%andb_prop Hp]%andb_prop. exists k.
    split_and!; [done..| |].
    + unfold GeminiService.noApiKey. simpl. by destruct (falsy k).
    + destruct k as [|c k]; [reflexivity|]. apply startsWith_head in Hp as <-.
      simpl. by rewrite !andb_false_r.
  - intros [[Hf Hlen%Nat.ltb_lt]%andb_prop Hp]%andb_prop. exists k.
    split_and!; [done..| |].
    + intros model. unfold OpenAIService.noApiKey. simpl. by destruct (falsy k).
    + destruct k as [|c k]; [reflexivity|]. apply startsWith_head in Hp as <-.
      simpl. by rewrite !andb_false_r.
Qed.

Lemma api_key_formats_witness :
  ∃ k, Some "AIzaSy0123456789abcdef" = Some k ∧ 20 < String.length k
       ∧ startsWith "AIzaSy" k = true
       ∧ GeminiService.noApiKey
           (GeminiService.constructor (Some "AIzaSy0123456789abcdef")) = false
       ∧ OpenAIService.isValidApiKey (Some "AIzaSy0123456789abcdef") = false.
Proof.
  apply (proj1 (api_key_formats (Some "AIzaSy0123456789abcdef"))). reflexivity.
Defined.

End AdapterOutcomes.

(** ** ChatController: sending and editing *)

Section ControllerTexts.
Import ChatModel ChatController.

Lemma append_cons c s t : String c s +:+ t = String c (s +:+ t).
Proof. done. Qed.

Lemma append_assoc (a b c : string) : (a +:+ b) +:+ c = a +:+ (b +:+ c).
Proof. induction a as [|x a IH]; [done|]. by rewrite !append_cons, IH. Qed.

Lemma trimEnd_snoc s c :
  isWhiteSpace c = false → trimEnd (s +:+ String c "") = s +:+ String c "".
Proof.
  intros Hc. induction s as [|x s IH].
  - change ("" +:+ String c "") with (String c ""). simpl. by rewrite Hc.
  - rewrite append_cons. simpl. rewrite IH.
    destruct s; by rewrite ?append_cons.
Qed.

(** A string that begins and ends with something else than white space is
    its own trimming. *)
Lemma trim_framed c mid d :
  isWhiteSpace c = false → isWhiteSpace d = false →
  trim (String c (mid +:+ String d "")) = String c (mid +:+ String d "").
Proof.
  intros Hc Hd. unfold trim. rewrite trimStart_stable by done.
  rewrite <-append_cons. by apply trimEnd_snoc.
Qed.

Lemma errorText_framed e :
  ∃ mid, errorText e = String "S" (mid +:+ ".").
Proof.
  unfold errorText.
  destruct (includes "API key" _); [|destruct (includes "quota" _);
    [|destruct (includes "Rate limit" _)]].
  - exists ("orry, I encountered an error: " +:+ errMessage e +:+ ". "
            +:+ "Please check your API key").
    by rewrite !append_assoc.
  - exists ("orry, I encountered an error: " +:+ errMessage e +:+ ". "
            +:+ "Try again later or use Eliza mode").
    by rewrite !append_assoc.
  - exists ("orry, I encountered an error: " +:+ errMessage e +:+ ". "
            +:+ "Rate limit exceeded. Please wait a moment").
    by rewrite !append_assoc.
  - exists ("orry, I encountered an error: " +:+ errMessage e +:+ ". "
            +:+ "Please try again").
    by rewrite !append_assoc.
Qed.

Lemma regenerateErrorText_framed e :
  ∃ mid, regenerateErrorText e = String "S" (mid +:+ ".").
Proof.
  unfold regenerateErrorText.
  destruct (includes "API key" _); [|destruct (includes "quota" _)].
  - exists ("orry, I couldn't regenerate a response: " +:+ errMessage e +:+ ". "
            +:+ "Please check your API key").
    by rewrite !append_assoc.
  - exists ("orry, I couldn't regenerate a response: " +:+ errMessage e +:+ ". "
            +:+ "Try again later or use Eliza mode").
    by rewrite !append_assoc.
  - exists ("orry, I couldn't regenerate a response: " +:+ errMessage e +:+ ". "
            +:+ "Please try again").
    by rewrite !append_assoc.
Qed.

Lemma framed_not_empty mid : emptyText (String "S" (mid +:+ ".")) = false.
Proof.
  unfold emptyText. rewrite trim_framed by done. done.
Qed.

(** The error texts of the controller are never refused by [create], and
    are stored as they are. *)
Lemma errorText_stored e :
  emptyText (errorText e) = false ∧ trim (errorText e) = errorText e.
Proof.
  destruct (errorText_framed e) as [mid ->]. split; [apply framed_not_empty|].
  by apply trim_framed.
Qed.

Lemma regenerateErrorText_stored e :
  emptyText (regenerateErrorText e) = false
  ∧ trim (regenerateErrorText e) = regenerateErrorText e.
Proof.
  destruct (regenerateErrorText_framed e) as [mid ->]. split; [apply framed_not_empty|].
  by apply trim_framed.
Qed.

End ControllerTexts.

Section ControllerSend.
Import ChatModel ChatController SampleStore.
Context {S : Type} (getResponse : string → list Message → S → settlement string * S).

Lemma create_open text isUser uuid now w :
  open w → emptyText text = false →
  ∃ w', create text isUser uuid now w
        = (Return (mkMessage uuid (trim text) isUser now false None), w')
        ∧ getAll w' = getAll w ++ [mkMessage uuid (trim text) isUser now false None]
        ∧ open w'.
Proof.
  intros Hopen He. rewrite create_result. cbv zeta. rewrite He, Hopen.
  eexists. split; [done|]. split; [done|]. intros l. apply Hopen.
Qed.

Lemma create_empty text isUser uuid now w :
  emptyText text = true →
  create text isUser uuid now w = (Throw (Error "Message text cannot be empty"), w).
Proof. intros He. unfold create. by rewrite He. Qed.

Lemma recover_open e stamp st :
  open (model st) →
  ∃ w', recover e stamp st
        = (Resolved tt,
           mkState w' (view st ++ [HideTypingIndicator; SetInputDisabled false]
                              ++ [ShowError (errMessage e)]))
        ∧ getAll w' = getAll (model st)
                        ++ [mkMessage stamp.1 (errorText e) false stamp.2 false None]
        ∧ open w'.
Proof.
  intros Hopen. destruct (errorText_stored e) as [He Ht].
  destruct (create_open (errorText e) false stamp.1 stamp.2 (model st) Hopen He)
    as (w' & Hc & Hall & Hopen').
  exists w'. unfold recover. rewrite Hc, Ht in *. by rewrite <-app_assoc.
Qed.

(** Sending a message that is not blank, with a store that takes every
    write and a service whose promise settles: the handler resolves; the
    service is handed the history with the new user message at its end; and
    the stored list grows by exactly two messages, the user's (trimmed) and
    one bot message after it: the response, trimmed, or the error text when
    the service rejected or answered with white space. *)
Theorem ChatController_send_stores_message_and_reply
    text user bot failure st service reply :
  ¬ blank text → open (model st) →
  let sent := mkMessage user.1 (trim text) true user.2 false None in
  let history := getAll (model st) ++ [sent] in
  replyTo (getResponse text history service).1 bot failure = Some reply →
  let result := handleSendMessage getResponse text user bot failure st service in
  result.1.1 = Resolved tt
  ∧ result.2 = (getResponse text history service).2
  ∧ getAll (model result.1.2) = getAll (model st) ++ [sent; reply]
  ∧ isUser reply = false
  ∧ ChatModel.text reply ≠ "".
Proof.
  intros Hnb%emptyText_not_blank Hopen sent history Hreply result.
  subst result. unfold handleSendMessage.
  destruct (create_open text true user.1 user.2 (model st) Hopen Hnb)
    as (w & -> & Hw & Hopenw).
  change (getAll w = history) in Hw. rewrite Hw. cbv zeta.
  destruct (getResponse text history service) as [[botResponse|e|] service'] eqn:Hg;
    simpl in Hreply; [| |done].
  - destruct (emptyText botResponse) eqn:Hb; simplify_eq.
    + rewrite (create_empty botResponse) by done.
      set (st1 := mkState w _).
      destruct (recover_open (Error "Message text cannot be empty") failure st1 Hopenw)
        as (w' & -> & Hw' & _).
      simpl. split_and!; [done..| |done|].
      * rewrite Hw'. simpl. rewrite Hw. by rewrite <-app_assoc.
      * by destruct (errorText_framed (Error "Message text cannot be empty")) as [mid ->].
    + destruct (create_open botResponse false bot.1 bot.2 w Hopenw Hb)
        as (w' & -> & Hw' & _).
      simpl. split_and!; [done..| |done|].
      * rewrite Hw', Hw. by rewrite <-app_assoc.
      * by apply not_blank_trim, emptyText_not_blank.
  - simplify_eq. set (st1 := mkState w _).
    destruct (recover_open e failure st1 Hopenw) as (w' & -> & Hw' & _).
    simpl. split_and!; [done..| |done|].
    + rewrite Hw'. simpl. rewrite Hw. by rewrite <-app_assoc.
    + by destruct (errorText_framed e) as [mid ->].
Qed.

(** Sending a blank message stores no user message and does not reach the
    service; with a store that takes every write the chat gets a bot
    message with the error text instead, and the view is told the error. *)
Theorem ChatController_blank_send_stores_error text user bot failure st service :
  blank text → open (model st) →
  let result := handleSendMessage getResponse text user bot failure st service in
  result.1.1 = Resolved tt
  ∧ result.2 = service
  ∧ getAll (model result.1.2)
    = getAll (model st)
      ++ [mkMessage failure.1
            "Sorry, I encountered an error: Message text cannot be empty. Please try again."
            false failure.2 false None]
  ∧ view result.1.2
    = view st ++ [HideTypingIndicator; SetInputDisabled false;
                  ShowError "Message text cannot be empty"].
Proof.
  intros Hb%emptyText_blank Hopen result. subst result. unfold handleSendMessage.
  rewrite create_empty by done.
  destruct (recover_open (Error "Message text cannot be empty") failure
              (mkState (model st) (view st)) Hopen) as (w' & -> & Hw' & _).
  simpl. split_and!; [done..|exact Hw'|done].
Qed.

Lemma inputDisabled_app view view' :
  inputDisabled (view ++ view')
  = foldl (λ disabled ev, match ev with SetInputDisabled d => d | _ => disabled end)
          (inputDisabled view) view'.
Proof. unfold inputDisabled. by rewrite foldl_app. Qed.

Lemma recover_enables e stamp st :
  inputDisabled (view (recover e stamp st).2) = false
  ∧ (recover e stamp st).1 ≠ Pending.
Proof.
  unfold recover. destruct (create _ _ _ _ _) as [[m|e'] w]; simpl;
    by rewrite ?inputDisabled_app.
Qed.

(** Whatever the text, the store and the service do, the input is disabled
    when the handler has run exactly if the handler is suspended on a
    service promise that does not settle; on every other path it was
    enabled again. *)
Theorem ChatController_input_disabled_iff_pending text user bot failure st service :
  let result := handleSendMessage getResponse text user bot failure st service in
  (inputDisabled (view result.1.2) = true ↔ result.1.1 = Pending)
  ∧ (result.1.1 = Pending ↔
     ∃ sent w, create text true user.1 user.2 (model st) = (Return sent, w)
               ∧ (getResponse text (getAll w) service).1 = Pending).
Proof.
  intros result. subst result. unfold handleSendMessage.
  destruct (create text true user.1 user.2 (model st)) as [[sent|e] w] eqn:Hc.
  - cbv zeta. destruct (getResponse text (getAll w) service)
      as [[botResponse|e|] service'] eqn:Hg.
    + destruct (create botResponse false bot.1 bot.2 w) as [[m|e] w'].
      * simpl. rewrite !inputDisabled_app. simpl. split; [done|].
        split; [done|]. intros (? & ? & [= <- <-] & Hp). by rewrite Hg in Hp.
      * pose proof (recover_enables e failure
          (mkState w' ((view st ++ [SetInputDisabled true; ShowTypingIndicator])
                       ++ [HideTypingIndicator]))) as [He Hn].
        simpl. rewrite He. split; [split; [done|by intros ?]|].
        split; [by intros ?|]. intros (? & ? & [= <- <-] & Hp). by rewrite Hg in Hp.
    + pose proof (recover_enables e failure
        (mkState w (view st ++ [SetInputDisabled true; ShowTypingIndicator])))
        as [He Hn].
      simpl. rewrite He. split; [split; [done|by intros ?]|].
      split; [by intros ?|]. intros (? & ? & [= <- <-] & Hp). by rewrite Hg in Hp.
    + simpl. rewrite inputDisabled_app. simpl. split; [done|].
      split; [|done]. intros _. exists sent, w. by rewrite Hg.
  - pose proof (recover_enables e failure (mkState w (view st))) as [He Hn].
    simpl. rewrite He. split; [split; [done|by intros ?]|].
    split; [by intros ?|]. by intros (? & ? & [=] & _).
Qed.

End ControllerSend.

Section ControllerSendExamples.
Import ChatModel ChatController SampleStore.

(** "Hello" through the local adapter over the sample engine, on an empty
    store: the user message and the engine's answer are stored. *)
Lemma ChatController_send_stores_message_and_reply_witness :
  let st := mkState storeEmpty [] in
  let result := handleSendMessage Sample.elizaService "Hello" ("u1", 1%N) ("u2", 2%N)
                  ("u3", 3%N) st Eliza.createSession in
  result.1.1 = Resolved tt
  ∧ result.2 = (Sample.elizaService "Hello"
                  (getAll storeEmpty ++ [mkMessage "u1" "Hello" true 1 false None])
                  Eliza.createSession).2
  ∧ getAll (model result.1.2)
    = getAll storeEmpty ++ [mkMessage "u1" "Hello" true 1 false None;
                            mkMessage "u2" "Please go on." false 2 false None]
  ∧ isUser (mkMessage "u2" "Please go on." false 2 false None) = false
  ∧ ChatModel.text (mkMessage "u2" "Please go on." false 2 false None) ≠ "".
Proof.
  apply (ChatController_send_stores_message_and_reply Sample.elizaService "Hello"
           ("u1", 1%N) ("u2", 2%N) ("u3", 3%N) (mkState storeEmpty [])
           Eliza.createSession (mkMessage "u2" "Please go on." false 2 false None)).
  - intros [H|H]; discriminate H.
  - intros l. reflexivity.
  - vm_compute. reflexivity.
Defined.

Lemma ChatController_blank_send_stores_error_witness :
  let result := handleSendMessage Sample.elizaService "  " ("u1", 1%N) ("u2", 2%N)
                  ("u3", 3%N) (mkState storeEmpty []) Eliza.createSession in
  result.1.1 = Resolved tt
  ∧ result.2 = Eliza.createSession
  ∧ getAll (model result.1.2)
    = getAll storeEmpty
      ++ [mkMessage "u3"
            "Sorry, I encountered an error: Message text cannot be empty. Please try again."
            false 3 false None]
  ∧ view result.1.2
    = [] ++ [HideTypingIndicator; SetInputDisabled false;
             ShowError "Message text cannot be empty"].
Proof.
  apply (ChatController_blank_send_stores_error Sample.elizaService "  "
           ("u1", 1%N) ("u2", 2%N) ("u3", 3%N) (mkState storeEmpty [])
           Eliza.createSession).
  - right. reflexivity.
  - intros l. reflexivity.
Defined.

End ControllerSendExamples.

Section ControllerEdit.
Import ChatModel ChatController SampleStore.
Context {T : Type} (getResponse : string → list Message → T → settlement string * T).

Lemma filter_unique_id (pre suf : list Message) m0 :
  NoDup (id <$> (pre ++ m0 :: suf)) →
  filter (λ m, id m ≠ id m0) (pre ++ m0 :: suf) = pre ++ suf.
Proof.
  rewrite fmap_app, fmap_cons. intros (Hpre & Hdisj & Hsuf)%NoDup_app.
  apply NoDup_cons in Hsuf as [Hnotin Hsuf].
  rewrite filter_app, filter_cons_False by (simpl; tauto).
  rewrite !filter_all; [done|..].
  - intros m Hm Heq. apply Hnotin. rewrite <-Heq. by apply list_elem_of_fmap_2.
  - intros m Hm Heq. apply (Hdisj (id m)); [by apply list_elem_of_fmap_2|].
    rewrite Heq. by left.
Qed.

Lemma delete_open i w pre m0 suf :
  open w → getAll w = pre ++ m0 :: suf → id m0 = i →
  NoDup (id <$> (pre ++ m0 :: suf)) →
  ∃ w', delete i w = (Return true, w') ∧ getAll w' = pre ++ suf ∧ open w'.
Proof.
  intros Hopen Hw <- Hnd. rewrite delete_result. cbv zeta.
  rewrite decide_False.
  - rewrite Hopen. eexists. split; [done|]. rewrite getAll_stored, Hw.
    split; [by apply filter_unique_id|]. intros l. apply Hopen.
  - intros Hall. rewrite Hw in Hall.
    apply (proj1 (Forall_forall _ _) Hall m0); [|done].
    apply elem_of_app. right. by left.
Qed.

(** With ids that are all different, deleting the messages of a tail of
    the stored list one by one leaves the part before it. *)
Lemma deleteEach_tail suf : ∀ w pre,
  open w → getAll w = pre ++ suf → NoDup (id <$> (pre ++ suf)) →
  ∃ w', deleteEach suf w = (Return tt, w') ∧ getAll w' = pre ∧ open w'.
Proof.
  induction suf as [|m0 suf IH]; intros w pre Hopen Hw Hnd; simpl.
  - exists w. by rewrite app_nil_r in Hw.
  - destruct (delete_open (id m0) w pre m0 suf Hopen Hw eq_refl Hnd)
      as (w1 & -> & Hw1 & Hopen1).
    apply (IH w1 pre Hopen1 Hw1).
    rewrite fmap_app, fmap_cons in Hnd. rewrite fmap_app.
    apply NoDup_app in Hnd as (Hpre & Hdisj & Hsuf).
    apply NoDup_cons in Hsuf as [_ Hsuf]. apply NoDup_app. split_and!; [done| |done].
    intros x Hx Hin. apply (Hdisj x Hx). by right.
Qed.

Lemma update_open i newText now w k m :
  open w → emptyText newText = false → target i (getAll w) k m → isUser m = true →
  ∃ w', update i newText now w = (Return (Some (edit newText now m)), w')
        ∧ getAll w' = take k (getAll w) ++ edit newText now m :: drop (S k) (getAll w)
        ∧ open w'.
Proof.
  intros Hopen He Ht Hu. pose proof Ht as (Hk & _ & _). apply find_Some in Ht.
  rewrite update_result, He, Ht, Hu, Hopen. eexists. split; [done|].
  rewrite getAll_stored. split; [|intros l; apply Hopen].
  apply insert_take_drop. by eapply lookup_lt_Some.
Qed.

(** Editing a user message, with ids that are all different, a store that
    takes every write and a service whose promise settles: the handler
    resolves; every message after the edited one is dropped; the service is
    asked with the new text and the history up to the edited message; and
    one bot message is stored after it: the new response, trimmed, or the
    error text when the service rejected or answered with white space. *)
Theorem ChatController_edit_regenerates_reply
    messageId newText now bot failure st service k m reply :
  ¬ blank newText → open (model st) → NoDup (id <$> getAll (model st)) →
  target messageId (getAll (model st)) k m → isUser m = true →
  let kept := take k (getAll (model st)) ++ [edit newText now m] in
  regeneratedFor (getResponse newText kept service).1 bot failure = Some reply →
  let result :=
    handleEditMessage getResponse messageId newText now bot failure st service in
  result.1.1 = Resolved tt
  ∧ result.2 = (getResponse newText kept service).2
  ∧ getAll (model result.1.2) = kept ++ [reply]
  ∧ isUser reply = false.
Proof.
  intros Hnb%emptyText_not_blank Hopen Hnd Ht Hu kept Hreply result.
  pose proof Ht as (Hk & Hid & Hfirst).
  pose proof (lookup_lt_Some _ _ _ Hk) as Hlt.
  destruct (update_open messageId newText now (model st) k m Hopen Hnb Ht Hu)
    as (w1 & Hupd & Hw1 & Hopen1).
  set (l := getAll (model st)) in *.
  assert (Hfind : find messageId (getAll w1) = Some (k, edit newText now m)).
  { apply find_Some. rewrite Hw1. split_and!.
    - rewrite lookup_app_r by (rewrite length_take; lia).
      rewrite length_take. by replace (k - k `min` length l) with 0 by lia.
    - done.
    - intros j m' Hj. rewrite lookup_app_l by (rewrite length_take; lia).
      rewrite lookup_take_lt by done. by apply Hfirst. }
  assert (Hdrop : drop (k + 1) (getAll w1) = drop (S k) l).
  { rewrite Hw1, Nat.add_1_r.
    change (take k l ++ edit newText now m :: drop (S k) l)
      with (take k l ++ [edit newText now m] ++ drop (S k) l).
    rewrite app_assoc, drop_app_length'; [done|].
    rewrite length_app, length_take. simpl. lia. }
  assert (Hnd1 : NoDup (id <$> (kept ++ drop (S k) l))).
  { unfold kept. rewrite <-app_assoc. simpl.
    replace (id <$> take k l ++ edit newText now m :: drop (S k) l)
      with (id <$> l); [done|].
    rewrite <-(take_drop_middle l k m) at 1 by done.
    by rewrite !fmap_app, !fmap_cons. }
  destruct (deleteEach_tail (drop (S k) l) w1 kept Hopen1) as (w2 & Hdel & Hw2 & Hopen2).
  { rewrite Hw1. unfold kept. by rewrite <-app_assoc. }
  { done. }
  subst result. unfold handleEditMessage. rewrite Hupd. cbv zeta.
  rewrite Hfind, Hdrop, Hdel, Hw2.
  destruct (getResponse newText kept service) as [[botResponse|e|] service'] eqn:Hg;
    simpl in Hreply; [| |done].
  - destruct (emptyText botResponse) eqn:Hb; simplify_eq.
    + rewrite (create_empty botResponse) by done.
      destruct (regenerateErrorText_stored (Error "Message text cannot be empty"))
        as [He Htrim].
      destruct (create_open (regenerateErrorText (Error "Message text cannot be empty"))
                  false failure.1 failure.2 w2 Hopen2 He) as (w3 & -> & Hw3 & _).
      simpl. rewrite Hw3, Hw2, Htrim. done.
    + destruct (create_open botResponse false bot.1 bot.2 w2 Hopen2 Hb)
        as (w3 & -> & Hw3 & _).
      simpl. rewrite Hw3, Hw2. done.
  - simplify_eq. destruct (regenerateErrorText_stored e) as [He Htrim].
    destruct (create_open (regenerateErrorText e) false failure.1 failure.2 w2 Hopen2 He)
      as (w3 & -> & Hw3 & _).
    simpl. rewrite Hw3, Hw2, Htrim. done.
Qed.

End ControllerEdit.

(** ** ChatController: providers and keys *)

Section ControllerProviders.
Import ChatController.

Lemma held_Some key k : held key = Some k → held (Some k) = Some k.
Proof.
  destruct key as [k0|]; simpl; [|done]. destruct (falsy k0) eqn:Hf; [done|].
  intros [= <-]. by rewrite Hf.
Qed.

Lemma geminiKeyOk_valid k :
  GeminiService.isValidApiKey (Some k) = true → geminiKeyOk (Some k).
Proof.
  intros Hv k' Hk'. simpl in Hk'. destruct (falsy k); by simplify_eq.
Qed.

Lemma openaiKeyOk_valid k :
  OpenAIService.isValidApiKey (Some k) = true → openaiKeyOk (Some k).
Proof.
  intros Hv k' Hk'. simpl in Hk'. destruct (falsy k); by simplify_eq.
Qed.

Lemma react_keysChecked ev p : keysChecked p → keysChecked (react ev p).
Proof.
  intros (Hg & Ho & Hsg & Hso & Hsvc). destruct ev as [provider|provider|apiKey|]; simpl.
  - done.
  - unfold handleProviderChange.
    destruct (decide (provider = "eliza")); [done|].
    destruct (decide (provider = "gemini")).
    { destruct (held (geminiApiKey p)) as [key|] eqn:Hk; [|done].
      split_and!; [done..|]. simpl. by apply Hg. }
    destruct (decide (provider = "openai")); [|done].
    destruct (held (openaiApiKey p)) as [key|] eqn:Hk; [|done].
    split_and!; [done..|]. simpl. split; [by apply Ho|done].
  - unfold handleApiKeySubmit. cbv zeta.
    destruct (decide (providerSelect p = "gemini")).
    { destruct (GeminiService.isValidApiKey (Some apiKey)) eqn:Hv; simpl; [|done].
      split_and!; [by apply geminiKeyOk_valid|done| |done|done].
      destruct (keyStoreWritable p); [by apply geminiKeyOk_valid|done]. }
    destruct (decide (providerSelect p = "openai")); [|done].
    destruct (OpenAIService.isValidApiKey (Some apiKey)) eqn:Hv; simpl; [|done].
    split_and!; [done|by apply openaiKeyOk_valid|done| |done].
    destruct (keyStoreWritable p); [by apply openaiKeyOk_valid|done].
  - unfold _loadSavedApiKeys. destruct (keyStoreReadable p); [|done].
    split_and!; simpl; [| |done..].
    + destruct (held (savedGeminiKey p)) as [k|] eqn:Hk; [|done].
      intros k' Hk'. rewrite (held_Some _ _ Hk) in Hk'. simplify_eq. by apply Hsg.
    + destruct (held (savedOpenAIKey p)) as [k|] eqn:Hk; [|done].
      intros k' Hk'. rewrite (held_Some _ _ Hk) in Hk'. simplify_eq. by apply Hso.
Qed.

Lemma reactAll_keysChecked events p : keysChecked p → keysChecked (reactAll events p).
Proof.
  revert p. induction events as [|ev events IH]; intros p Hp; [done|].
  simpl. apply IH. by apply react_keysChecked.
Qed.

(** If the keys the browser store holds at start pass the format checks,
    then through any sequence of provider selections, key submissions and
    reloads of the saved keys the controller holds, stores and uses only
    keys that pass the format check of their provider; in particular the
    current service is a remote one only with such a key. *)
Theorem ChatController_uses_only_checked_keys
    savedGemini savedOpenAI readable writable selected events :
  geminiKeyOk savedGemini → openaiKeyOk savedOpenAI →
  let p := reactAll events (constructed savedGemini savedOpenAI readable writable selected) in
  keysChecked p
  ∧ (∀ k, currentService p = Gemini k → GeminiService.isValidApiKey (Some k) = true)
  ∧ (∀ k m, currentService p = OpenAI k m →
       OpenAIService.isValidApiKey (Some k) = true ∧ m = "gpt-3.5-turbo").
Proof.
  intros Hsg Hso p.
  assert (Hinv : keysChecked p).
  { subst p. apply reactAll_keysChecked. split_and!; done. }
  split; [done|]. destruct Hinv as (_ & _ & _ & _ & Hsvc).
  split.
  - intros k Hk. by rewrite Hk in Hsvc.
  - intros k m Hk. by rewrite Hk in Hsvc.
Qed.

(** No key saved; the user picks Gemini, submits a malformed key, then a
    well-formed one, and switches back and forth. *)
Lemma ChatController_uses_only_checked_keys_witness :
  let p := reactAll [LoadSavedKeys; Select "gemini"; ChangeProvider "gemini";
                     SubmitKey "invalid-key"; SubmitKey "AIzaSy0123456789abcdef";
                     ChangeProvider "eliza"; ChangeProvider "gemini"]
                    (constructed None None true true "eliza") in
  keysChecked p
  ∧ (∀ k, currentService p = Gemini k → GeminiService.isValidApiKey (Some k) = true)
  ∧ (∀ k m, currentService p = OpenAI k m →
       OpenAIService.isValidApiKey (Some k) = true ∧ m = "gpt-3.5-turbo").
Proof.
  apply (ChatController_uses_only_checked_keys None None true true "eliza").
  - intros k Hk. discriminate Hk.
  - intros k Hk. discriminate Hk.
Defined.

(** A key the format check refuses changes nothing but the view, which is
    told the error: the service, the keys held and the keys saved stay. *)
Theorem ChatController_malformed_key_changes_nothing apiKey p :
  (providerSelect p = "gemini" ∧ GeminiService.isValidApiKey (Some apiKey) = false)
  ∨ (providerSelect p = "openai" ∧ OpenAIService.isValidApiKey (Some apiKey) = false) →
  let p' := handleApiKeySubmit apiKey p in
  currentService p' = currentService p
  ∧ geminiApiKey p' = geminiApiKey p ∧ openaiApiKey p' = openaiApiKey p
  ∧ savedGeminiKey p' = savedGeminiKey p ∧ savedOpenAIKey p' = savedOpenAIKey p
  ∧ ∃ message, told p' = told p ++ [ShowError message].
Proof.
  intros [[Hsel Hv]|[Hsel Hv]]; unfold handleApiKeySubmit; cbv zeta; rewrite Hsel.
  - rewrite decide_True by done. rewrite Hv. simpl. split_and!; [done..|by eexists].
  - rewrite decide_False by done. rewrite decide_True by done. rewrite Hv. simpl.
    split_and!; [done..|by eexists].
Qed.

Lemma ChatController_malformed_key_changes_nothing_witness :
  let p := constructed None None true true "gemini" in
  let p' := handleApiKeySubmit "invalid-key" p in
  currentService p' = currentService p
  ∧ geminiApiKey p' = geminiApiKey p ∧ openaiApiKey p' = openaiApiKey p
  ∧ savedGeminiKey p' = savedGeminiKey p ∧ savedOpenAIKey p' = savedOpenAIKey p
  ∧ ∃ message, told p' = told p ++ [ShowError message].
Proof.
  apply (ChatController_malformed_key_changes_nothing "invalid-key"
           (constructed None None true true "gemini")).
  left. split; reflexivity.
Defined.

End ControllerProviders.

Section ControllerEditExample.
Import ChatModel ChatController SampleStore.

(** Editing the user message of the two-message store to "my cat": the old
    bot message goes, the engine's new answer comes. *)
Lemma ChatController_edit_regenerates_reply_witness :
  let kept := take 0 (getAll storeTwo)
              ++ [edit "my cat" 20 (mkMessage "a" "Hello" true 10 false None)] in
  let result := handleEditMessage Sample.elizaService "a" "my cat" 20 ("u2", 21%N)
                  ("u3", 22%N) (mkState storeTwo []) Eliza.createSession in
  result.1.1 = Resolved tt
  ∧ result.2 = (Sample.elizaService "my cat" kept Eliza.createSession).2
  ∧ getAll (model result.1.2) = kept ++ [mkMessage "u2" "Your cat?" false 21 false None]
  ∧ isUser (mkMessage "u2" "Your cat?" false 21 false None) = false.
Proof.
  apply (ChatController_edit_regenerates_reply Sample.elizaService "a" "my cat" 20
           ("u2", 21%N) ("u3", 22%N) (mkState storeTwo []) Eliza.createSession 0
           (mkMessage "a" "Hello" true 10 false None)
           (mkMessage "u2" "Your cat?" false 21 false None)).
  - intros [H|H]; discriminate H.
  - intros l. reflexivity.
  - apply (bool_decide_unpack _). vm_compute. exact I.
  - split_and!; [reflexivity..|]. intros j m' Hj. lia.
  - reflexivity.
  - vm_compute. reflexivity.
Defined.

End ControllerEditExample.

(** ** ChatController over the local adapter *)

Section ControllerOverEliza.
Import ChatModel ChatController SampleStore.
Context {T : Type} (getBotResponse : string → T → completion string * T).

(** The local adapter settles its promise from a timer callback: when the
    engine throws there, the promise is neither resolved nor rejected.  So a
    message whose engine call throws is stored, but the handler never gets
    past the [await]: no bot message and no error message follow, the
    [catch] does not run, and the input stays disabled. *)
Theorem ChatController_engine_error_suspends_send text user bot failure st engine e :
  ¬ blank text → open (model st) →
  (getBotResponse text engine).1 = Throw e →
  let result :=
    handleSendMessage (elizaService getBotResponse) text user bot failure st engine in
  result.1.1 = Pending
  ∧ getAll (model result.1.2)
    = getAll (model st) ++ [mkMessage user.1 (trim text) true user.2 false None]
  ∧ view result.1.2 = view st ++ [SetInputDisabled true; ShowTypingIndicator]
  ∧ inputDisabled (view result.1.2) = true.
Proof.
  intros Hnb%emptyText_not_blank Hopen Hthrow result. subst result.
  unfold handleSendMessage.
  destruct (create_open text true user.1 user.2 (model st) Hopen Hnb)
    as (w & -> & Hw & _).
  cbv zeta. unfold elizaService, ElizaService_part_005.getResponse.
  destruct (getBotResponse text engine) as [[response|e'] engine']; [done|].
  simpl. split_and!; [done..|]. by rewrite inputDisabled_app.
Qed.

(** When the engine returns, the adapter resolves with what it returned, so
    the reply stored is the engine's answer (or the error text, should the
    answer be white space). *)
Theorem ChatController_engine_answer_is_stored
    text user bot failure st engine response reply :
  ¬ blank text → open (model st) →
  (getBotResponse text engine).1 = Return response →
  replyTo (Resolved response) bot failure = Some reply →
  let result :=
    handleSendMessage (elizaService getBotResponse) text user bot failure st engine in
  result.1.1 = Resolved tt
  ∧ result.2 = (getBotResponse text engine).2
  ∧ getAll (model result.1.2)
    = getAll (model st)
      ++ [mkMessage user.1 (trim text) true user.2 false None; reply]
  ∧ inputDisabled (view result.1.2) = false.
Proof.
  intros Hnb%emptyText_not_blank Hopen Hret Hreply result. subst result.
  unfold handleSendMessage.
  destruct (create_open text true user.1 user.2 (model st) Hopen Hnb)
    as (w & -> & Hw & Hopenw).
  cbv zeta. unfold elizaService, ElizaService_part_005.getResponse.
  destruct (getBotResponse text engine) as [[response'|e'] engine'] eqn:Hg; [|done].
  simpl in Hret. simplify_eq. simpl in Hreply. cbn [fst snd outcome].
  destruct (emptyText response) eqn:Hb; simplify_eq.
  - rewrite (create_empty response) by done.
    set (st1 := mkState w _).
    destruct (recover_open (Error "Message text cannot be empty") failure st1 Hopenw)
      as (w' & Hrec & Hw' & _).
    pose proof (recover_enables (Error "Message text cannot be empty") failure st1)
      as [Hen _].
    rewrite Hrec in Hen |- *. simpl in *. split_and!; [done..| |done].
    rewrite Hw', Hw. by rewrite <-app_assoc.
  - destruct (create_open response false bot.1 bot.2 w Hopenw Hb) as (w' & -> & Hw' & _).
    simpl. split_and!; [done..| |].
    + rewrite Hw', Hw. by rewrite <-app_assoc.
    + by rewrite !inputDisabled_app.
Qed.

End ControllerOverEliza.

Section ControllerOverElizaExamples.
Import ChatModel ChatController SampleStore.

(** An engine that always throws. *)
Lemma ChatController_engine_error_suspends_send_witness :
  let broken (message : string) (st : unit) : completion string * unit :=
    (Throw (Error "no rules"), st) in
  let result := handleSendMessage (elizaService broken) "Hello" ("u1", 1%N) ("u2", 2%N)
                  ("u3", 3%N) (mkState storeEmpty []) tt in
  result.1.1 = Pending
  ∧ getAll (model result.1.2)
    = getAll storeEmpty ++ [mkMessage "u1" (trim "Hello") true 1 false None]
  ∧ view result.1.2 = [] ++ [SetInputDisabled true; ShowTypingIndicator]
  ∧ inputDisabled (view result.1.2) = true.
Proof.
  intros broken.
  apply (ChatController_engine_error_suspends_send broken "Hello" ("u1", 1%N)
           ("u2", 2%N) ("u3", 3%N) (mkState storeEmpty []) tt (Error "no rules")).
  - intros [H|H]; discriminate H.
  - intros l. reflexivity.
  - reflexivity.
Defined.

Lemma ChatController_engine_answer_is_stored_witness :
  let result :=
    handleSendMessage (elizaService (Eliza.getBotResponse Sample.store)) "my cat"
      ("u1", 1%N) ("u2", 2%N) ("u3", 3%N) (mkState storeEmpty []) Eliza.createSession in
  result.1.1 = Resolved tt
  ∧ result.2 = (Eliza.getBotResponse Sample.store "my cat" Eliza.createSession).2
  ∧ getAll (model result.1.2)
    = getAll storeEmpty
      ++ [mkMessage "u1" (trim "my cat") true 1 false None;
          mkMessage "u2" "Your cat?" false 2 false None]
  ∧ inputDisabled (view result.1.2) = false.
Proof.
  apply (ChatController_engine_answer_is_stored (Eliza.getBotResponse Sample.store)
           "my cat" ("u1", 1%N) ("u2", 2%N) ("u3", 3%N) (mkState storeEmpty [])
           Eliza.createSession "Your cat?"
           (mkMessage "u2" "Your cat?" false 2 false None)).
  - intros [H|H]; discriminate H.
  - intros l. reflexivity.
  - vm_compute. reflexivity.
  - reflexivity.
Defined.

End ControllerOverElizaExamples.
